(** * Verification of the incremental backup engine (Проект/Пример.py)

    The program is a thin orchestration layer over the operating system
    (os, os.path, zipfile, json, time, datetime) and the Fernet cipher.  It
    is embedded as follows.

    - A method of [BackupSystem] is a term of the free monad [prog] over the
      library calls it makes ([effect]); reads and writes of the attributes
      of [self] are the constructors [GetSelf] and [SetSelf].
    - [run] executes a program on a [State] (the world: file system, clock,
      entropy; and the object [self]) and returns the trace of library
      calls with their replies, the outcome (a value or the Python
      exception that escaped) and the final state.  [run_env] lets the
      environment act between two calls, [crash_after] stops the process
      after a number of calls.
    - Console output ([print]) is left out; so are [get_file_hash] (never
      called), [list_backups] (it only prints; its name test is
      [is_backup_name]) and the scheduling loop. *)

From Stdlib Require Import List String Ascii ZArith Bool Arith Lia.
Import ListNotations.
Open Scope string_scope.
Open Scope list_scope.

(* ================================================================== *)
(** * Data model *)

(** A path string is represented by its list of components, taken from the
    working directory of the process (the program never changes it):
    "katyrov/a.txt" is ["katyrov"; "a.txt"], and the empty list is ".". *)
Definition path := list string.

(** Python exceptions the modelled calls raise. *)
Inductive exn :=
| FileNotFoundError
| PermissionError
| IsADirectoryError
| NotADirectoryError
| FileExistsError
| OSError
| ValueError
| JSONDecodeError
| BadZipFile
| InvalidToken.

Inductive result (A : Type) : Type :=
| Ok (a : A)
| Err (e : exn).
Arguments Ok {A} a.
Arguments Err {A} e.

(** Instants. [time.time()] and [os.path.getmtime] return finite doubles;
    every finite double is an integer multiple of 2^-1074, so an instant is
    represented by that integer and Python's [>] on the floats is [Z.gtb]
    on the representatives. *)
Definition instant := Z.

(** [self.config["last_backup"]] when it is not [None]. *)
Record Marker := {
  m_type : string;
  m_time : instant;
  m_files_count : nat
}.

(** An element of [self.config["backup_history"]]; full backups record no
    ["files_count"]. *)
Record HistoryEntry := {
  h_type : string;
  h_time : string;
  h_path : path;
  h_files_count : option nat
}.

(** The configuration dictionary. *)
Record Config := {
  source_dirs : list path;
  backup_dir : path;
  schedule : string;
  last_backup : option Marker;
  backup_history : list HistoryEntry
}.

Definition Key := string.

(** Byte strings, symbolically: the bytes that [json.dump], [zipfile] and
    Fernet produce are represented by what they encode.  A zip member is
    its name and its content ([None] for a directory member); a Fernet
    token records the key, the initialisation vector and the timestamp it
    was made with. *)
#[local] Unset Elimination Schemes.

Inductive data :=
| Raw (bytes : string)
| Zip (members : list (path * option data))
| Token (key : Key) (iv : string) (ts : instant) (plain : data)
| Json (doc : Config).

(** The file system: a tree rooted at the working directory.  A symbolic
    link holds its target as a path from the root.  Of the permissions,
    the read permission of a file and the permission to list a directory
    are represented. *)
Inductive node :=
| File (mtime : instant) (readable : bool) (content : data)
| Dir (mtime : instant) (listable : bool) (entries : list (string * node))
| Symlink (target : path).

#[local] Set Elimination Schemes.

(** The world outside the object: file system, clock (as [time.time()]
    reads it and as [datetime.now().strftime("%Y%m%d_%H%M%S")] renders it)
    and the entropy source ([os.urandom]). *)
Record World := {
  fs : node;
  now : instant;
  now_label : string;
  entropy : nat -> string;
  drawn : nat
}.

(** The attributes of a [BackupSystem] object; [self.cipher] is
    [Fernet(self.key)] and is determined by [key]. *)
Record BackupSystem := {
  config_file : path;
  config : Config;
  key : Key
}.

Record State := {
  world : World;
  self : BackupSystem
}.

Definition set_fs (w : World) (f : node) : World :=
  {| fs := f; now := now w; now_label := now_label w;
     entropy := entropy w; drawn := drawn w |}.

Definition set_world (s : State) (w : World) : State :=
  {| world := w; self := self s |}.

Definition set_self (s : State) (b : BackupSystem) : State :=
  {| world := world s; self := b |}.

Definition set_config (b : BackupSystem) (c : Config) : BackupSystem :=
  {| config_file := config_file b; config := c; key := key b |}.

(* ================================================================== *)
(** * os.path *)

Definition curdir : string := ".".
Definition pardir : string := "..".

(** [os.path.join(root, name)] for a relative [name]. *)
Definition join (root : path) (name : string) : path := root ++ [name].

(** [s + suffix] on a path string: the suffix lands on the last component. *)
Fixpoint add_suffix (p : path) (suffix : string) : path :=
  match p with
  | [] => [suffix]
  | [c] => [(c ++ suffix)%string]
  | c :: rest => c :: add_suffix rest suffix
  end.

(** The loop of [posixpath.normpath] on a relative path; [acc] holds
    [new_comps] reversed. *)
Fixpoint normpath_loop (comps : path) (acc : path) : path :=
  match comps with
  | [] => rev acc
  | comp :: rest =>
      if String.eqb comp "" || String.eqb comp curdir then normpath_loop rest acc
      else if negb (String.eqb comp pardir) then normpath_loop rest (comp :: acc)
      else match acc with
           | [] => normpath_loop rest (comp :: acc)
           | last :: acc' =>
               if String.eqb last pardir then normpath_loop rest (comp :: acc)
               else normpath_loop rest acc'
           end
  end.

Definition normpath (p : path) : path := normpath_loop p [].

Fixpoint common_prefix (a b : path) : path :=
  match a, b with
  | x :: a', y :: b' => if String.eqb x y then x :: common_prefix a' b' else []
  | _, _ => []
  end.

(** [os.path.commonpath(paths)] for relative paths: empty and "."
    components are dropped and the longest common run of leading
    components is returned (the library takes it between the least and the
    greatest path, which is the common prefix of all of them). *)
Definition commonpath (paths : list path) : result path :=
  let clean := filter (fun c => negb (String.eqb c "" || String.eqb c curdir)) in
  match paths with
  | [] => Err ValueError
  | p :: rest => Ok (fold_left (fun acc q => common_prefix acc (clean q)) rest (clean p))
  end.

(** [os.path.relpath(p, start)]: both are made absolute against the same
    working directory, so that prefix is shared and left out. *)
Definition relpath (p start : path) : path :=
  let start_list := normpath start in
  let path_list := normpath p in
  let i := List.length (common_prefix start_list path_list) in
  repeat pardir (List.length start_list - i) ++ skipn i path_list.

(** [s.endswith(suffix)]. *)
Definition endswith (s suffix : string) : bool :=
  let n := String.length s in
  let k := String.length suffix in
  (k <=? n)%nat && String.eqb (substring (n - k) k s) suffix.

(** [sub in s]. *)
Fixpoint contains (sub s : string) : bool :=
  prefix sub s
  || match s with
     | EmptyString => false
     | String _ s' => contains sub s'
     end.

(** The naming convention [list_backups] matches directory entries against. *)
Definition is_backup_name (item : string) : bool :=
  endswith item ".zip" && contains "тест" item.

(* ================================================================== *)
(** * The file system *)

Fixpoint assoc (name : string) (es : list (string * node)) : option node :=
  match es with
  | [] => None
  | (n, child) :: rest => if String.eqb n name then Some child else assoc name rest
  end.

(** Creates or replaces the entry [name]. *)
Fixpoint put_entry (name : string) (new : node) (es : list (string * node))
  : list (string * node) :=
  match es with
  | [] => [(name, new)]
  | (n, child) :: rest =>
      if String.eqb n name then (n, new) :: rest
      else (n, child) :: put_entry name new rest
  end.

Fixpoint del_entry (name : string) (es : list (string * node)) : list (string * node) :=
  match es with
  | [] => []
  | (n, child) :: rest =>
      if String.eqb n name then rest else (n, child) :: del_entry name rest
  end.

Fixpoint map_entry (name : string) (f : node -> node) (es : list (string * node))
  : list (string * node) :=
  match es with
  | [] => []
  | (n, child) :: rest =>
      if String.eqb n name then (n, f child) :: rest
      else (n, child) :: map_entry name f rest
  end.

(** What following a path gives: the node found and where it really is;
    nothing there although the parent directory exists; a symbolic link on
    the way, with the path to go on with; or an error. *)
Inductive lookup :=
| Found (place : path) (n : node)
| Absent (place : path)
| Follow (p : path)
| Fails (e : exn).

Fixpoint walk_path (n : node) (place : path) (p : path) : lookup :=
  match p with
  | [] => Found place n
  | c :: rest =>
      match n with
      | Dir _ _ es =>
          match assoc c es with
          | None =>
              match rest with
              | [] => Absent (place ++ [c])
              | _ => Fails FileNotFoundError
              end
          | Some (Symlink t) => Follow (t ++ rest)
          | Some child => walk_path child (place ++ [c]) rest
          end
      | _ => Fails NotADirectoryError
      end
  end.

(** Path resolution following symbolic links, at most [fuel] of them. *)
Fixpoint resolve (fuel : nat) (root : node) (p : path) : lookup :=
  match walk_path root [] (normpath p) with
  | Follow p' =>
      match fuel with
      | O => Fails OSError
      | S fuel' => resolve fuel' root p'
      end
  | r => r
  end.

(** [os.stat]: the kernel follows at most 40 links. *)
Definition stat (root : node) (p : path) : lookup := resolve 40 root p.

(** Puts [new] at the place [p] (a resolved location whose parent exists);
    a directory that gains an entry is touched. *)
Fixpoint put_at (t : instant) (n : node) (p : path) (new : node) : node :=
  match p with
  | [] => new
  | [c] =>
      match n with
      | Dir m l es =>
          Dir (match assoc c es with None => t | Some _ => m end) l (put_entry c new es)
      | _ => n
      end
  | c :: rest =>
      match n with
      | Dir m l es => Dir m l (map_entry c (fun child => put_at t child rest new) es)
      | _ => n
      end
  end.

Fixpoint del_at (t : instant) (n : node) (p : path) : node :=
  match p with
  | [] => n
  | [c] =>
      match n with
      | Dir m l es => Dir t l (del_entry c es)
      | _ => n
      end
  | c :: rest =>
      match n with
      | Dir m l es => Dir m l (map_entry c (fun child => del_at t child rest) es)
      | _ => n
      end
  end.

(** [os.path.exists]. *)
Definition fs_exists (root : node) (p : path) : bool :=
  match stat root p with
  | Found _ _ => true
  | _ => false
  end.

(** [os.path.getmtime]: [os.stat(p).st_mtime]. *)
Definition fs_getmtime (root : node) (p : path) : result instant :=
  match stat root p with
  | Found _ (File m _ _) => Ok m
  | Found _ (Dir m _ _) => Ok m
  | Found _ (Symlink _) => Err OSError
  | Absent _ => Err FileNotFoundError
  | Follow _ => Err OSError
  | Fails e => Err e
  end.

(** [os.path.getsize]: whether [os.stat(p)] succeeds; the size itself,
    which the program only prints, is not represented. *)
Definition fs_getsize (root : node) (p : path) : result unit :=
  match fs_getmtime root p with
  | Ok _ => Ok tt
  | Err e => Err e
  end.

(** [open(p, 'rb').read()]. *)
Definition fs_read (root : node) (p : path) : result data :=
  match stat root p with
  | Found _ (File _ true d) => Ok d
  | Found _ (File _ false _) => Err PermissionError
  | Found _ (Dir _ _ _) => Err IsADirectoryError
  | Found _ (Symlink _) => Err OSError
  | Absent _ => Err FileNotFoundError
  | Follow _ => Err OSError
  | Fails e => Err e
  end.

(** [open(p, 'w')]: the file is created, or truncated when it exists;
    [empty] is the content of the fresh file. *)
Definition fs_open_w (t : instant) (empty : data) (root : node) (p : path) : result node :=
  match stat root p with
  | Found place (File _ r _) => Ok (put_at t root place (File t r empty))
  | Found _ (Dir _ _ _) => Err IsADirectoryError
  | Found _ (Symlink _) => Err OSError
  | Absent place => Ok (put_at t root place (File t true empty))
  | Follow _ => Err OSError
  | Fails e => Err e
  end.

(** [f.write(d)] on the file opened at [p]. *)
Definition fs_write (t : instant) (root : node) (p : path) (d : data) : result node :=
  match stat root p with
  | Found place (File _ r _) => Ok (put_at t root place (File t r d))
  | Found _ (Dir _ _ _) => Err IsADirectoryError
  | Found _ (Symlink _) => Err OSError
  | Absent _ => Err FileNotFoundError
  | Follow _ => Err OSError
  | Fails e => Err e
  end.

(** [os.remove(p)]: the entry itself goes, a link is not followed. *)
Definition fs_remove (t : instant) (root : node) (p : path) : result node :=
  let p' := normpath p in
  match stat root (removelast p') with
  | Found place (Dir _ _ es) =>
      match assoc (last p' "") es with
      | Some (Dir _ _ _) => Err IsADirectoryError
      | Some _ => Ok (del_at t root (place ++ [last p' ""]))
      | None => Err FileNotFoundError
      end
  | Found _ _ => Err NotADirectoryError
  | Absent _ => Err FileNotFoundError
  | Follow _ => Err OSError
  | Fails e => Err e
  end.

(** [os.makedirs(p, exist_ok=True)]: every missing directory on the way is
    made, an existing directory is accepted. *)
Fixpoint makedirs_from (t : instant) (root : node) (done todo : path) : result node :=
  match todo with
  | [] => Ok root
  | c :: rest =>
      match stat root (done ++ [c]) with
      | Found _ (Dir _ _ _) => makedirs_from t root (done ++ [c]) rest
      | Found _ _ =>
          match rest with
          | [] => Err FileExistsError
          | _ => Err NotADirectoryError
          end
      | Absent place =>
          makedirs_from t (put_at t root place (Dir t true [])) (done ++ [c]) rest
      | Follow _ => Err OSError
      | Fails e => Err e
      end
  end.

Definition fs_makedirs (t : instant) (root : node) (p : path) : result node :=
  makedirs_from t root [] (normpath p).

(** [DirEntry.is_dir()]: links are followed, an error counts as "no". *)
Definition entry_is_dir (root : node) (child : node) : bool :=
  match child with
  | Dir _ _ _ => true
  | File _ _ _ => false
  | Symlink t =>
      match stat root t with
      | Found _ (Dir _ _ _) => true
      | _ => false
      end
  end.

(** [os.walk(top)] top-down, links to directories not followed
    ([followlinks=False]), errors of [scandir] ignored ([onerror=None]):
    the triples [(root, dirs, files)] in the order they are yielded. *)
Fixpoint walk_tree (root : node) (top : path) (n : node)
  : list (path * list string * list string) :=
  match n with
  | Dir _ true es =>
      (top,
       map fst (filter (fun e => entry_is_dir root (snd e)) es),
       map fst (filter (fun e => negb (entry_is_dir root (snd e))) es))
      :: (fix subdirs (l : list (string * node)) :=
            match l with
            | [] => []
            | (name, child) :: rest =>
                match child with
                | Dir _ _ _ => walk_tree root (join top name) child
                | _ => []
                end ++ subdirs rest
            end) es
  | _ => []
  end.

Definition os_walk (root : node) (top : path) : list (path * list string * list string) :=
  match stat root top with
  | Found _ n => walk_tree root top n
  | _ => []
  end.

(** What [ZipFile.write(filename, arcname)] stores: [ZipInfo.from_file]
    stats the file and normalises the name, then the file is opened and
    copied; a directory is stored as a member without content.  The
    [ValueError] of [ZipInfo.from_file] for a modification time before 1980
    or after 2107 is not represented: instants count from an epoch inside
    that range. *)
Definition zip_member (root : node) (filename arcname : path)
  : result (path * option data) :=
  match stat root filename with
  | Found _ (File _ true d) => Ok (normpath arcname, Some d)
  | Found _ (File _ false _) => Err PermissionError
  | Found _ (Dir _ _ _) => Ok (normpath arcname, None)
  | Found _ (Symlink _) => Err OSError
  | Absent _ => Err FileNotFoundError
  | Follow _ => Err OSError
  | Fails e => Err e
  end.

(** [zipf.write(filename, arcname)] on the archive being written at [zp]. *)
Definition fs_zip_write (t : instant) (root : node) (zp filename arcname : path)
  : result node :=
  match zip_member root filename arcname with
  | Err e => Err e
  | Ok member =>
      match stat root zp with
      | Found place (File _ r (Zip members)) =>
          Ok (put_at t root place (File t r (Zip (members ++ [member]))))
      | _ => Err ValueError
      end
  end.

(** [os.path.isdir]. *)
Definition fs_isdir (root : node) (p : path) : bool :=
  match stat root p with
  | Found _ (Dir _ _ _) => true
  | _ => false
  end.

(** [os.mkdir]. *)
Definition fs_mkdir (t : instant) (root : node) (p : path) : result node :=
  match stat root p with
  | Found _ _ => Err FileExistsError
  | Absent place => Ok (put_at t root place (Dir t true []))
  | Follow _ => Err OSError
  | Fails e => Err e
  end.

(* ================================================================== *)
(** * Fernet *)

(** [Fernet(key).decrypt(token)] without [ttl]: the token must
    authenticate under the key; anything else raises [InvalidToken]. *)
Definition fernet_decrypt (k : Key) (token : data) : result data :=
  match token with
  | Token k' _ _ plain => if String.eqb k k' then Ok plain else Err InvalidToken
  | _ => Err InvalidToken
  end.

(* ================================================================== *)
(** * Library calls and programs *)

Inductive effect :=
| Exists (p : path)
| Isdir (p : path)
| Read (p : path)
| OpenW (p : path)
| Write (p : path) (d : data)
| Remove (p : path)
| Mkdir (p : path)
| Makedirs (p : path)
| Walk (top : path)
| Getmtime (p : path)
| Getsize (p : path)
| ZipOpenW (p : path)
| ZipWrite (zp filename arcname : path)
| TimeTime
| NowStrftime
| FernetEncrypt (k : Key) (d : data)
| GenerateKey.

Definition reply (op : effect) : Type :=
  match op with
  | Exists _ | Isdir _ => bool
  | Read _ => result data
  | OpenW _ | Write _ _ | Remove _ | Mkdir _ | Makedirs _
  | ZipOpenW _ | ZipWrite _ _ _ => result unit
  | Walk _ => list (path * list string * list string)
  | Getmtime _ => result instant
  | Getsize _ => result unit
  | TimeTime => instant
  | NowStrftime => string
  | FernetEncrypt _ _ => data
  | GenerateKey => Key
  end.

Definition commit (r : result node) (w : World) : result unit * World :=
  match r with
  | Ok f => (Ok tt, set_fs w f)
  | Err e => (Err e, w)
  end.

Definition draw (w : World) : World :=
  {| fs := fs w; now := now w; now_label := now_label w;
     entropy := entropy w; drawn := S (drawn w) |}.

(** What each call does to the world and what it returns. *)
Definition handle (op : effect) (w : World) : reply op * World :=
  match op return reply op * World with
  | Exists p => (fs_exists (fs w) p, w)
  | Isdir p => (fs_isdir (fs w) p, w)
  | Read p => (fs_read (fs w) p, w)
  | OpenW p => commit (fs_open_w (now w) (Raw "") (fs w) p) w
  | Write p d => commit (fs_write (now w) (fs w) p d) w
  | Remove p => commit (fs_remove (now w) (fs w) p) w
  | Mkdir p => commit (fs_mkdir (now w) (fs w) p) w
  | Makedirs p => commit (fs_makedirs (now w) (fs w) p) w
  | Walk top => (os_walk (fs w) top, w)
  | Getmtime p => (fs_getmtime (fs w) p, w)
  | Getsize p => (fs_getsize (fs w) p, w)
  | ZipOpenW p => commit (fs_open_w (now w) (Zip []) (fs w) p) w
  | ZipWrite zp filename arcname =>
      commit (fs_zip_write (now w) (fs w) zp filename arcname) w
  | TimeTime => (now w, w)
  | NowStrftime => (now_label w, w)
  | FernetEncrypt k d => (Token k (entropy w (drawn w)) (now w) d, draw w)
  | GenerateKey => (entropy w (drawn w), draw w)
  end.

Inductive prog (A : Type) : Type :=
| Ret (a : A)
| Raise (e : exn)
| GetSelf (k : BackupSystem -> prog A)
| SetSelf (b : BackupSystem) (k : prog A)
| Do (op : effect) (k : reply op -> prog A).
Arguments Ret {A} a.
Arguments Raise {A} e.
Arguments GetSelf {A} k.
Arguments SetSelf {A} b k.
Arguments Do {A} op k.

Fixpoint bind {A B : Type} (p : prog A) (f : A -> prog B) : prog B :=
  match p with
  | Ret a => f a
  | Raise e => Raise e
  | GetSelf k => GetSelf (fun b => bind (k b) f)
  | SetSelf b k => SetSelf b (bind k f)
  | Do op k => Do op (fun r => bind (k r) f)
  end.

Notation "x <- p ;; q" := (bind p (fun x => q))
  (at level 61, p at next level, right associativity).
Notation "p ;; q" := (bind p (fun _ => q))
  (at level 61, right associativity).

(** A failed call raises: nothing in the program catches an exception. *)
Definition lift {A : Type} (r : result A) : prog A :=
  match r with
  | Ok a => Ret a
  | Err e => Raise e
  end.

Definition get_self : prog BackupSystem := GetSelf (fun b => Ret b).
Definition put_self (b : BackupSystem) : prog unit := SetSelf b (Ret tt).

Definition os_path_exists (p : path) : prog bool := Do (Exists p) (fun r => Ret r).
Definition os_path_isdir (p : path) : prog bool := Do (Isdir p) (fun r => Ret r).
Definition read_file (p : path) : prog data := Do (Read p) (fun r => lift r).
Definition open_w (p : path) : prog unit := Do (OpenW p) (fun r => lift r).
Definition write (p : path) (d : data) : prog unit := Do (Write p d) (fun r => lift r).
Definition os_remove (p : path) : prog unit := Do (Remove p) (fun r => lift r).
Definition os_mkdir (p : path) : prog unit := Do (Mkdir p) (fun r => lift r).
Definition os_makedirs (p : path) : prog unit := Do (Makedirs p) (fun r => lift r).
Definition walk (top : path) : prog (list (path * list string * list string)) :=
  Do (Walk top) (fun r => Ret r).
Definition os_path_getmtime (p : path) : prog instant := Do (Getmtime p) (fun r => lift r).
Definition os_path_getsize (p : path) : prog unit := Do (Getsize p) (fun r => lift r).
Definition zip_open_w (p : path) : prog unit := Do (ZipOpenW p) (fun r => lift r).
Definition zip_write (zp filename arcname : path) : prog unit :=
  Do (ZipWrite zp filename arcname) (fun r => lift r).
Definition time_time : prog instant := Do TimeTime (fun r => Ret r).
Definition now_strftime : prog string := Do NowStrftime (fun r => Ret r).
Definition fernet_encrypt (k : Key) (d : data) : prog data :=
  Do (FernetEncrypt k d) (fun r => Ret r).
Definition generate_key : prog Key := Do GenerateKey (fun r => Ret r).

(** A [for] loop whose body updates a local variable. *)
Fixpoint for_acc {A S : Type} (xs : list A) (acc : S) (body : S -> A -> prog S) : prog S :=
  match xs with
  | [] => Ret acc
  | x :: rest => acc' <- body acc x ;; for_acc rest acc' body
  end.

(** A [for] loop run for its effects. *)
Fixpoint for_each {A : Type} (xs : list A) (body : A -> prog unit) : prog unit :=
  match xs with
  | [] => Ret tt
  | x :: rest => body x ;; for_each rest body
  end.

(* ================================================================== *)
(** * Execution *)

(** A library call with its reply. *)
Record event := Ev { ev_op : effect; ev_reply : reply ev_op }.

Definition trace := list event.

(** Execution in an environment: the rest of the system acts on the world
    just before each library call of the program, [env] listing what it
    does, call by call (nothing once the list is used up). *)
Definition schedule_of := list (World -> World).

Definition env_act (env : schedule_of) (w : World) : World :=
  match env with
  | [] => w
  | act :: _ => act w
  end.

Fixpoint run_env (env : schedule_of) {A : Type} (p : prog A) (s : State)
  : trace * result A * State :=
  match p with
  | Ret a => ([], Ok a, s)
  | Raise e => ([], Err e, s)
  | GetSelf k => run_env env (k (self s)) s
  | SetSelf b k => run_env env k (set_self s b)
  | Do op k =>
      let (r, w) := handle op (env_act env (world s)) in
      let '(t, o, s') := run_env (tl env) (k r) (set_world s w) in
      (Ev op r :: t, o, s')
  end.

(** Execution with nothing else touching the world. *)
Definition run {A : Type} (p : prog A) (s : State) : trace * result A * State :=
  run_env [] p s.

(** The state in which the process is when it is killed after [n] library
    calls (or when it ends, if that comes first). *)
Fixpoint crash_after (n : nat) {A : Type} (p : prog A) (s : State) : State :=
  match p with
  | Ret _ | Raise _ => s
  | GetSelf k => crash_after n (k (self s)) s
  | SetSelf b k => crash_after n k (set_self s b)
  | Do op k =>
      match n with
      | O => s
      | S n' =>
          let (r, w) := handle op (world s) in
          crash_after n' (k r) (set_world s w)
      end
  end.

Definition outcome {A : Type} (x : trace * result A * State) : result A := snd (fst x).
Definition trace_of {A : Type} (x : trace * result A * State) : trace := fst (fst x).
Definition final {A : Type} (x : trace * result A * State) : State := snd x.

(* ================================================================== *)
(** * BackupSystem *)

Definition default_config : Config :=
  {| source_dirs := [["katyrov"]];
     backup_dir := ["backups"];
     schedule := "daily";
     last_backup := None;
     backup_history := [] |}.

Definition set_last_backup (c : Config) (m : Marker) : Config :=
  {| source_dirs := source_dirs c; backup_dir := backup_dir c;
     schedule := schedule c; last_backup := Some m;
     backup_history := backup_history c |}.

Definition append_history (c : Config) (h : HistoryEntry) : Config :=
  {| source_dirs := source_dirs c; backup_dir := backup_dir c;
     schedule := schedule c; last_backup := last_backup c;
     backup_history := backup_history c ++ [h] |}.

(** [load_config]: [json.load] of the configuration file when it exists,
    the defaults otherwise.  A file holds the document the program wrote
    ([Json doc], a complete dictionary) or bytes that do not parse; a JSON
    value of another shape, which [json.load] would return and on which a
    later subscript raises [KeyError], is not represented. *)
Definition load_config : prog Config :=
  self <- get_self ;;
  found <- os_path_exists (config_file self) ;;
  if found : bool then
    text <- read_file (config_file self) ;;
    match text with
    | Json doc => Ret doc
    | _ => Raise JSONDecodeError
    end
  else Ret default_config.

(** [__init__]. *)
Definition __init__ : prog unit :=
  self <- get_self ;;
  put_self {| config_file := ["backup_config.json"]; config := config self;
              key := key self |} ;;
  cfg <- load_config ;;
  self <- get_self ;;
  put_self (set_config self cfg) ;;
  k <- generate_key ;;
  self <- get_self ;;
  put_self {| config_file := config_file self; config := config self; key := k |}.

(** [save_config]: [open(self.config_file, 'w')], then [json.dump]. *)
Definition save_config : prog unit :=
  self <- get_self ;;
  open_w (config_file self) ;;
  self <- get_self ;;
  write (config_file self) (Json (config self)).

(** The test of line 48. *)
Definition is_changed (last_backup_time : option instant) (mtime : instant) : bool :=
  match last_backup_time with
  | None => true
  | Some t => (mtime >? t)%Z
  end.

(** [get_changed_files]. *)
Definition get_changed_files (last_backup_time : option instant) : prog (list path) :=
  self <- get_self ;;
  for_acc (source_dirs (config self)) [] (fun changed_files source_dir =>
    walked <- walk source_dir ;;
    for_acc walked changed_files (fun changed_files triple =>
      let '(root, _, files) := triple in
      for_acc files changed_files (fun changed_files file =>
        let filepath := join root file in
        mtime <- os_path_getmtime filepath ;;
        if is_changed last_backup_time mtime
        then Ret (changed_files ++ [filepath])
        else Ret changed_files))).

(** [self.cipher.encrypt(data)] and [self.cipher.decrypt(token)]: the
    cipher is the one made from [self.key] in [__init__]. *)
Definition cipher_encrypt (plain : data) : prog data :=
  self <- get_self ;;
  fernet_encrypt (key self) plain.

Definition cipher_decrypt (token : data) : prog data :=
  self <- get_self ;;
  lift (fernet_decrypt (key self) token).

(** [create_archive]. *)
Definition create_archive (archive_path : path) (file_list : list path)
  (backup_type : string) : prog unit :=
  let temp_archive := add_suffix archive_path ".temp" in
  zip_open_w temp_archive ;;
  for_each file_list (fun file_path =>
    common <- lift (commonpath file_list) ;;
    let arcname := relpath file_path common in
    zip_write temp_archive file_path arcname) ;;
  data <- read_file temp_archive ;;
  encrypted_data <- cipher_encrypt data ;;
  open_w archive_path ;;
  write archive_path encrypted_data ;;
  os_remove temp_archive ;;
  os_path_getsize archive_path.

(** [full_backup]. *)
Definition full_backup : prog path :=
  timestamp <- now_strftime ;;
  self <- get_self ;;
  let backup_path :=
    join (backup_dir (config self)) ("тест_full_" ++ timestamp ++ ".zip")%string in
  os_makedirs (backup_dir (config self)) ;;
  all_files <-
    for_acc (source_dirs (config self)) [] (fun all_files source_dir =>
      walked <- walk source_dir ;;
      for_acc walked all_files (fun all_files triple =>
        let '(root, _, files) := triple in
        for_acc files all_files (fun all_files file =>
          Ret (all_files ++ [join root file])))) ;;
  create_archive backup_path all_files "full" ;;
  t <- time_time ;;
  self <- get_self ;;
  put_self (set_config self (set_last_backup (config self)
    {| m_type := "full"; m_time := t; m_files_count := List.length all_files |})) ;;
  self <- get_self ;;
  put_self (set_config self (append_history (config self)
    {| h_type := "full"; h_time := timestamp; h_path := backup_path;
       h_files_count := None |})) ;;
  save_config ;;
  Ret backup_path.

(** [incremental_backup]; Python's [None] and a returned path are the two
    cases of the option. *)
Definition incremental_backup : prog (option path) :=
  self <- get_self ;;
  match last_backup (config self) with
  | None =>
      backup_path <- full_backup ;;
      Ret (Some backup_path)
  | Some marker =>
      let last_time := m_time marker in
      changed_files <- get_changed_files (Some last_time) ;;
      match changed_files with
      | [] => Ret None
      | _ :: _ =>
          timestamp <- now_strftime ;;
          self <- get_self ;;
          let backup_path :=
            join (backup_dir (config self)) ("тест_inc_" ++ timestamp ++ ".zip")%string in
          create_archive backup_path changed_files "incremental" ;;
          t <- time_time ;;
          self <- get_self ;;
          put_self (set_config self (set_last_backup (config self)
            {| m_type := "incremental"; m_time := t;
               m_files_count := List.length changed_files |})) ;;
          self <- get_self ;;
          put_self (set_config self (append_history (config self)
            {| h_type := "incremental"; h_time := timestamp; h_path := backup_path;
               h_files_count := Some (List.length changed_files) |})) ;;
          save_config ;;
          Ret (Some backup_path)
      end
  end.

(** [ZipFile(p, 'r')]: the members, [BadZipFile] when the bytes are not an
    archive. *)
Definition zip_members (d : data) : result (list (path * option data)) :=
  match d with
  | Zip members => Ok members
  | _ => Err BadZipFile
  end.

(** [ZipFile._extract_member]: empty, "." and ".." components of the
    member's name are dropped, the directories above the target are made,
    and the content is written. *)
Definition extract_member (targetdir : path) (member : path * option data) : prog unit :=
  let arcname :=
    filter (fun x => negb (String.eqb x "" || String.eqb x curdir || String.eqb x pardir))
           (fst member) in
  let targetpath := normpath (targetdir ++ arcname) in
  let upperdirs := removelast targetpath in
  match upperdirs with
  | [] => Ret tt
  | _ :: _ =>
      found <- os_path_exists upperdirs ;;
      if found : bool then Ret tt else os_makedirs upperdirs
  end ;;
  match snd member with
  | None =>
      isdir <- os_path_isdir targetpath ;;
      if isdir : bool then Ret tt else os_mkdir targetpath
  | Some content =>
      open_w targetpath ;;
      write targetpath content
  end.

Definition extractall (targetdir : path) (members : list (path * option data)) : prog unit :=
  for_each members (extract_member targetdir).

(** [restore_backup]. *)
Definition restore_backup (backup_path restore_dir : path) : prog unit :=
  encrypted_data <- read_file backup_path ;;
  decrypted_data <- cipher_decrypt encrypted_data ;;
  let temp_archive := add_suffix backup_path ".temp.zip" in
  open_w temp_archive ;;
  write temp_archive decrypted_data ;;
  os_makedirs restore_dir ;;
  archive <- read_file temp_archive ;;
  members <- lift (zip_members archive) ;;
  extractall restore_dir members ;;
  os_remove temp_archive.

(* ================================================================== *)
(** * A concrete machine, for running the program *)

Definition file (t : instant) (s : string) : node := File t true (Raw s).

Definition blank : BackupSystem :=
  {| config_file := []; config := default_config; key := "" |}.

Definition boot (root : node) (t : instant) (label : string) : State :=
  {| world := {| fs := root; now := t; now_label := label;
                 entropy := fun n => String (ascii_of_nat (65 + n)) "";
                 drawn := 0 |};
     self := blank |}.

(** The demonstration tree of [run_demo]: two files under katyrov. *)
Definition demo_fs : node :=
  Dir 0%Z true
    [("katyrov", Dir 10%Z true [("a.txt", file 10%Z "1"); ("b.txt", file 20%Z "2")])].

Definition started (root : node) (t : instant) (label : string) : State :=
  final (run __init__ (boot root t label)).

(* ================================================================== *)
(** * Vocabulary of the statements *)

(** Footprints.  [within P sets p]: every library call [p] can make satisfies [P], and
    [p] assigns to an attribute of [self] only if [sets] holds. *)
Fixpoint within {A : Type} (P : effect -> bool) (sets : bool) (p : prog A) : Prop :=
  match p with
  | Ret _ | Raise _ => True
  | GetSelf k => forall b, within P sets (k b)
  | SetSelf _ k => sets = true /\ within P sets k
  | Do op k => P op = true /\ forall r, within P sets (k r)
  end.

(** The paths one walk hands to the loop body: [os.path.join(root, file)]
    for every triple and every file of it, in order. *)
Definition walked_files (walked : list (path * list string * list string)) : list path :=
  flat_map (fun triple => map (join (fst (fst triple))) (snd triple)) walked.

(** Every path the enumeration loops visit in a state. *)
Definition enumerated (s : State) : list path :=
  flat_map (fun source_dir => walked_files (os_walk (fs (world s)) source_dir))
           (source_dirs (config (self s))).

(** The innermost loop as a function of the file system: the first
    modification time that cannot be read raises, a changed file is
    appended. *)
Fixpoint scan (root : node) (since : option instant) (files acc : list path)
  : result (list path) :=
  match files with
  | [] => Ok acc
  | f :: rest =>
      match fs_getmtime root f with
      | Err e => Err e
      | Ok m => scan root since rest (if is_changed since m then acc ++ [f] else acc)
      end
  end.

(** Whether the test of line 48 keeps the path [f]. *)
Definition keeps (root : node) (since : option instant) (f : path) : bool :=
  match fs_getmtime root f with
  | Ok m => is_changed since m
  | Err _ => false
  end.

Definition stat_ok (root : node) (f : path) : Prop :=
  exists m, fs_getmtime root f = Ok m.

(** The body of the innermost loop of [get_changed_files]. *)
Definition check_file (last_backup_time : option instant) (root : path)
  (changed_files : list path) (file : string) : prog (list path) :=
  let filepath := join root file in
  mtime <- os_path_getmtime filepath ;;
  if is_changed last_backup_time mtime
  then Ret (changed_files ++ [filepath])
  else Ret changed_files.

(** The loop over the triples of one walk. *)
Definition check_walked (last_backup_time : option instant)
  (changed_files : list path) (triple : path * list string * list string)
  : prog (list path) :=
  let '(root, _, files) := triple in
  for_acc files changed_files (check_file last_backup_time root).

(** The loop over the source directories. *)
Definition check_source (last_backup_time : option instant)
  (changed_files : list path) (source_dir : path) : prog (list path) :=
  walked <- walk source_dir ;;
  for_acc walked changed_files (check_walked last_backup_time).

(** The tree of the demonstration seen at instant 100. *)
Definition demo_state : State := started demo_fs 100%Z "20240101_120000".



(** A source tree in which every entry can be stat'ed: a file without read
    permission and a link to a regular file outside the sources. *)
Definition guarded_fs : node :=
  Dir 0%Z true
    [("katyrov", Dir 10%Z true [("secret", File 50%Z false (Raw "x"));
                                ("link", Symlink ["elsewhere"])]);
     ("elsewhere", file 60%Z "y")].

Definition guarded_state : State := started guarded_fs 100%Z "20240101_120000".

(** The footprint of change detection: it walks and stats. *)
Definition enumerates (op : effect) : bool :=
  match op with
  | Walk _ | Getmtime _ => true
  | _ => false
  end.

Definition path_eqb (p q : path) : bool :=
  if list_eq_dec string_dec p q then true else false.

(** The exception a reply carries, if the call failed. *)
Definition failure (op : effect) : reply op -> option exn :=
  match op return reply op -> option exn with
  | Read _ => fun r => match r with Err e => Some e | Ok _ => None end
  | OpenW _ | Write _ _ | Remove _ | Mkdir _ | Makedirs _
  | ZipOpenW _ | ZipWrite _ _ _ =>
      fun r => match r with Err e => Some e | Ok _ => None end
  | Getmtime _ => fun r => match r with Err e => Some e | Ok _ => None end
  | Getsize _ => fun r => match r with Err e => Some e | Ok _ => None end
  | _ => fun _ => None
  end.

Definition failed (ev : event) : option exn := failure (ev_op ev) (ev_reply ev).

Definition is_zip_write (op : effect) : bool :=
  match op with
  | ZipWrite _ _ _ => true
  | _ => false
  end.

(** An input file could not be read when the archiver came to it:
    [zipf.write] raised. *)
Definition unreadable_input (ev : event) : bool :=
  is_zip_write (ev_op ev) && match failed ev with Some _ => true | None => false end.

(** The calls of lines 119-122: the archive under construction at [temp]
    is opened and members are added from [file_list]. *)
Definition zips (temp : path) (file_list : list path) (op : effect) : bool :=
  match op with
  | ZipOpenW p => path_eqb p temp
  | ZipWrite p filename _ => path_eqb p temp && existsb (path_eqb filename) file_list
  | _ => false
  end.

(** The calls of lines 126-137: the archive is read back, encrypted,
    written to its final place, the temporary file is removed, and the
    size of the result is asked for. *)
Definition seals (op : effect) : bool :=
  match op with
  | Read _ | FernetEncrypt _ _ | OpenW _ | Write _ _ | Remove _ | Getsize _ => true
  | _ => false
  end.

(** The body of the loop of [create_archive]. *)
Definition add_member (temp : path) (file_list : list path) (file_path : path)
  : prog unit :=
  common <- lift (commonpath file_list) ;;
  let arcname := relpath file_path common in
  zip_write temp file_path arcname.

(** Lines 126-137 of [create_archive]. *)
Definition seal_archive (temp archive_path : path) : prog unit :=
  data <- read_file temp ;;
  encrypted_data <- cipher_encrypt data ;;
  open_w archive_path ;;
  write archive_path encrypted_data ;;
  os_remove temp ;;
  os_path_getsize archive_path.

(** A completed sealing made exactly these calls: the archive was read
    back, encrypted under the key of [self], written to its final place,
    the temporary file was removed, and the size was asked for. *)
Definition sealed (k : Key) (temp archive_path : path) (t : trace) : Prop :=
  exists (d token : data),
    t = [Ev (Read temp) (Ok d); Ev (FernetEncrypt k d) token;
         Ev (OpenW archive_path) (Ok tt); Ev (Write archive_path token) (Ok tt);
         Ev (Remove temp) (Ok tt); Ev (Getsize archive_path) (Ok tt)].

Definition archives (temp : path) (file_list : list path) (op : effect) : bool :=
  zips temp file_list op || seals op.

(** Lines 67-79 and 100-113: the marker is set from a fresh clock reading,
    the history entry is appended, the configuration is saved and the
    result returned. *)
Definition record_backup {B : Type} (mk : instant -> Marker) (entry : HistoryEntry)
  (r : B) : prog B :=
  t <- time_time ;;
  self <- get_self ;;
  put_self (set_config self (set_last_backup (config self) (mk t))) ;;
  self <- get_self ;;
  put_self (set_config self (append_history (config self) entry)) ;;
  save_config ;;
  Ret r.

(** Lines 65-79 and 98-113. *)
Definition archive_and_record {B : Type} (backup_path : path) (files : list path)
  (kind timestamp : string) (count : option nat) (r : B) : prog B :=
  create_archive backup_path files kind ;;
  record_backup
    (fun t => {| m_type := kind; m_time := t; m_files_count := List.length files |})
    {| h_type := kind; h_time := timestamp; h_path := backup_path;
       h_files_count := count |}
    r.

(** The calls of [save_config] and how they ended: [o] is the outcome of
    a program that returns [r] once the configuration [doc] is saved. *)
Definition saved {B : Type} (cf : path) (doc : Config) (r : B)
  (t : trace) (o : result B) : Prop :=
  (exists e, t = [Ev (OpenW cf) (Err e)] /\ o = Err e)
  \/ (exists e, t = [Ev (OpenW cf) (Ok tt); Ev (Write cf (Json doc)) (Err e)]
                /\ o = Err e)
  \/ (t = [Ev (OpenW cf) (Ok tt); Ev (Write cf (Json doc)) (Ok tt)] /\ o = Ok r).

(** The run stopped with an exception before anything was recorded:
    [self] is as it was; and if the exception came from an input file that
    could not be read, the only calls made wrote the temporary archive. *)
Definition aborted {B : Type} (temp : path) (files : list path)
  (s : State) (t : trace) (o : result B) (s' : State) : Prop :=
  self s' = self s
  /\ (exists e, o = Err e)
  /\ Forall (fun ev => archives temp files (ev_op ev) = true) t
  /\ (existsb unreadable_input t = true ->
      Forall (fun ev => zips temp files (ev_op ev) = true) t).

(** The run completed the archive, sealed it, then read the clock, set the
    marker to that reading, appended the history entry and went on to
    save the configuration. *)
Definition recorded {B : Type} (kind timestamp : string) (count : option nat)
  (backup_path : path) (files : list path) (r : B)
  (s : State) (t : trace) (o : result B) (s' : State) : Prop :=
  exists (tz tsl tsave : trace) (tm : instant),
    let temp := add_suffix backup_path ".temp" in
    let doc :=
      append_history
        (set_last_backup (config (self s))
           {| m_type := kind; m_time := tm; m_files_count := List.length files |})
        {| h_type := kind; h_time := timestamp; h_path := backup_path;
           h_files_count := count |} in
    t = tz ++ tsl ++ Ev TimeTime tm :: tsave
    /\ Forall (fun ev => zips temp files (ev_op ev) = true) tz
    /\ existsb unreadable_input tz = false
    /\ sealed (key (self s)) temp backup_path tsl
    /\ self s' = set_config (self s) doc
    /\ saved (config_file (self s)) doc r tsave o.

(** The calls made before archiving starts. *)
Definition prepares (op : effect) : bool :=
  match op with
  | NowStrftime | Makedirs _ | Walk _ | Getmtime _ => true
  | _ => false
  end.

(** A run of the backup of kind [kind]: after the preparation it either
    aborted or recorded the backup.  [tag] is the prefix of the file name,
    [count] the ["files_count"] of the history entry, [ret] the value
    returned for the path, [chosen] what is known of the files handed to
    the archiver. *)
Definition backup_run {B : Type} (kind tag : string) (count : list path -> option nat)
  (ret : path -> B) (chosen : list path -> Prop)
  (s : State) (t : trace) (o : result B) (s' : State) : Prop :=
  exists (timestamp : string) (files : list path) (tpre trest : trace),
    let backup_path :=
      join (backup_dir (config (self s))) (tag ++ timestamp ++ ".zip")%string in
    chosen files
    /\ t = tpre ++ trest
    /\ Forall (fun ev => prepares (ev_op ev) = true) tpre
    /\ (aborted (add_suffix backup_path ".temp") files s trest o s'
        \/ recorded kind timestamp (count files) backup_path files (ret backup_path)
             s trest o s').

(** Lines 59-63 of [full_backup]. *)
Definition collect_files (dirs : list path) : prog (list path) :=
  for_acc dirs [] (fun all_files source_dir =>
    walked <- walk source_dir ;;
    for_acc walked all_files (fun all_files triple =>
      let '(root, _, files) := triple in
      for_acc files all_files (fun all_files file =>
        Ret (all_files ++ [join root file])))).

Definition some_path (o : result path) : result (option path) :=
  match o with
  | Ok backup_path => Ok (Some backup_path)
  | Err e => Err e
  end.

(** A run of [incremental_backup] that found nothing to do. *)
Definition nothing_to_do (s : State) (t : trace) (o : result (option path))
  (s' : State) : Prop :=
  o = Ok None
  /\ self s' = self s
  /\ Forall (fun ev => enumerates (ev_op ev) = true) t.

(** A state after a full backup of the demonstration tree, at instant 100;
    nothing was modified since. *)
Definition backed_up_state : State := final (run full_backup demo_state).





Definition history (s : State) : list HistoryEntry :=
  backup_history (config (self s)).

Definition any_call (op : effect) : bool := true.

(** The file an archiving call reads. *)
Definition zip_source (op : effect) : option path :=
  match op with
  | ZipWrite _ filename _ => Some filename
  | _ => None
  end.

(** A successful backup run, call by call: preparation; the temporary
    archive is written; it is sealed into [backup_path]; only then the
    clock is read; the reading [tm] is the marker's time; the
    configuration is saved. *)
Definition marker_follows_sealing (s : State) (backup_path : path) (t : trace)
  (s' : State) : Prop :=
  exists (files : list path) (tpre tz tsl : trace) (tm : instant),
    let temp := add_suffix backup_path ".temp" in
    t = tpre ++ tz ++ tsl
        ++ [Ev TimeTime tm;
            Ev (OpenW (config_file (self s))) (Ok tt);
            Ev (Write (config_file (self s)) (Json (config (self s')))) (Ok tt)]
    /\ Forall (fun ev => prepares (ev_op ev) = true) tpre
    /\ Forall (fun ev => zips temp files (ev_op ev) = true) tz
    /\ sealed (key (self s)) temp backup_path tsl
    /\ option_map m_time (last_backup (config (self s'))) = Some tm.

(** Every file a backup run hands to [zipf.write] is one of [files]. *)
Definition sources_among (files : list path) (t : trace) : Prop :=
  Forall (fun ev => forall g, zip_source (ev_op ev) = Some g -> In g files) t.

(** What the rest of the system does while a full backup of the
    demonstration tree runs: once the archive is complete (before the
    seventh call, the reading back) the clock shows 150 and a.txt is
    rewritten; before the thirteenth call ([time.time()]) the clock shows
    200. *)
Definition rewrite_a (w : World) : World :=
  {| fs := put_at 150%Z (fs w) ["katyrov"; "a.txt"] (file 150%Z "1x");
     now := 150%Z; now_label := now_label w;
     entropy := entropy w; drawn := drawn w |}.

Definition tick_200 (w : World) : World :=
  {| fs := fs w; now := 200%Z; now_label := now_label w;
     entropy := entropy w; drawn := drawn w |}.

Definition quiet (w : World) : World := w.

Definition racing_env : schedule_of :=
  [quiet; quiet; quiet; quiet; quiet; quiet; rewrite_a;
   quiet; quiet; quiet; quiet; quiet; tick_200].

Definition raced_state : State := final (run_env racing_env full_backup demo_state).

(** A component that names an entry: not empty, not "." and not "..". *)
Definition plain (c : string) : bool :=
  negb (String.eqb c "" || String.eqb c curdir || String.eqb c pardir).

(** A source tree with a single file. *)
Definition single_fs : node :=
  Dir 0%Z true [("katyrov", Dir 10%Z true [("a.txt", file 10%Z "1")])].

Definition single_state : State := started single_fs 100%Z "20240101_120000".

Definition single_backed_up : State := final (run full_backup single_state).

Definition demo_archive : path := ["backups"; "тест_full_20240101_120000.zip"].

(** The scenario of the specification: after the full backup a.txt alone
    is modified (at instant 150); the incremental backup at instant 200
    archives it under the name "." and the restore of that archive fails. *)
Definition touched_state : State :=
  {| world :=
       {| fs := put_at 150%Z (fs (world backed_up_state)) ["katyrov"; "a.txt"]
                  (file 150%Z "1x");
          now := 200%Z; now_label := "20240101_120200";
          entropy := entropy (world backed_up_state);
          drawn := drawn (world backed_up_state) |};
     self := self backed_up_state |}.

(** What atomicity of a save against a crash would mean: whenever the
    process is killed, the configuration file holds what it held before
    or the full new document. *)
Definition save_is_atomic (s : State) : Prop :=
  forall n,
    fs_read (fs (world (crash_after n save_config s))) (config_file (self s))
    = fs_read (fs (world s)) (config_file (self s))
    \/ fs_read (fs (world (crash_after n save_config s))) (config_file (self s))
       = Ok (Json (config (self s))).

(** The state in which the next backup's record waits to be saved: the
    configuration in memory has one more history entry than the file. *)
Definition pending_state : State :=
  set_self backed_up_state
    (set_config (self backed_up_state)
       (append_history (config (self backed_up_state))
          {| h_type := "incremental"; h_time := "20240101_120200";
             h_path := ["backups"; "тест_inc_20240101_120200.zip"];
             h_files_count := Some 1 |})).

(** Induction on the file system tree. *)
Section node_induction.
Variable P : node -> Prop.
Hypothesis Hfile : forall m r c, P (File m r c).
Hypothesis Hlink : forall t, P (Symlink t).
Hypothesis Hdir : forall m l es, Forall (fun e => P (snd e)) es -> P (Dir m l es).

End node_induction.




Definition vanish_a (w : World) : World :=
  set_fs w (del_at (now w) (fs w) ["katyrov"; "a.txt"]).

Definition vanishing_env : schedule_of := [quiet; vanish_a].

(** A new process on the same machine: the world is what the previous
    process left, the object is yet to be initialised. *)
Definition restart (s : State) : State :=
  {| world := world s; self := blank |}.

(** The object [__init__] builds around a configuration. *)
Definition instance (cfg : Config) (k : Key) : BackupSystem :=
  {| config_file := ["backup_config.json"]; config := cfg; key := k |}.

(** The process restarted after the full backup of the demonstration tree. *)
Definition restarted_state : State := final (run __init__ (restart backed_up_state)).

(** What a program can return: [returns P p] when every value [p] may
    return satisfies [P]. *)
Fixpoint returns {A : Type} (P : A -> Prop) (p : prog A) : Prop :=
  match p with
  | Ret a => P a
  | Raise _ => True
  | GetSelf k => forall b, returns P (k b)
  | SetSelf _ k => returns P k
  | Do op k => forall r, returns P (k r)
  end.

Definition is_remove (op : effect) : bool :=
  match op with
  | Remove _ => true
  | _ => false
  end.

(** A call that removed a file. *)
Definition removed (ev : event) : bool :=
  is_remove (ev_op ev) && match failed ev with None => true | Some _ => false end.

Definition keeps_files (op : effect) : bool := negb (is_remove op).

(** [cleans_up_last temp p]: [p] removes nothing but [temp], and returns
    as soon as it has removed it and only then. *)
Fixpoint cleans_up_last {A : Type} (temp : path) (p : prog A) : Prop :=
  match p with
  | Ret _ => False
  | Raise _ => True
  | GetSelf k => forall b, cleans_up_last temp (k b)
  | SetSelf _ k => cleans_up_last temp k
  | Do op k =>
      forall r,
        if removed (Ev op r)
        then op = Remove temp /\ exists a, k r = Ret a
        else cleans_up_last temp (k r)
  end.

(** The settings of an instance: what of [self] is neither marker nor
    history nor key. *)
Definition same_settings (s s' : State) : Prop :=
  source_dirs (config (self s')) = source_dirs (config (self s))
  /\ backup_dir (config (self s')) = backup_dir (config (self s))
  /\ schedule (config (self s')) = schedule (config (self s))
  /\ config_file (self s') = config_file (self s).

(* ================================================================== *)
(** * Execution of composite programs *)

Lemma skipn_tl {X : Type} (n : nat) (l : list X) : skipn n (tl l) = skipn (S n) l.
Proof. destruct l; simpl; [ apply skipn_nil | reflexivity ]. Qed.

Lemma run_env_bind {A B : Type} (p : prog A) (f : A -> prog B) :
  forall env s,
    run_env env (bind p f) s =
    let '(t1, o1, s1) := run_env env p s in
    match o1 with
    | Ok a =>
        let '(t2, o2, s2) := run_env (skipn (List.length t1) env) (f a) s1 in
        (t1 ++ t2, o2, s2)
    | Err e => (t1, Err e, s1)
    end.
Proof.
  induction p as [a | e | k IH | b k IH | op k IH]; intros env s; simpl.
  - destruct (run_env env (f a) s) as [[t2 o2] s2]. reflexivity.
  - reflexivity.
  - apply IH.
  - apply IH.
  - destruct (handle op (env_act env (world s))) as [r w].
    rewrite IH.
    destruct (run_env (tl env) (k r) (set_world s w)) as [[t1 o1] s1].
    destruct o1 as [a | e]; [ | reflexivity ].
    rewrite skipn_tl. simpl List.length.
    destruct (run_env _ (f a) s1) as [[t2 o2] s2]. reflexivity.
Qed.

Lemma run_bind {A B : Type} (p : prog A) (f : A -> prog B) (s : State) :
  run (bind p f) s =
  let '(t1, o1, s1) := run p s in
  match o1 with
  | Ok a => let '(t2, o2, s2) := run (f a) s1 in (t1 ++ t2, o2, s2)
  | Err e => (t1, Err e, s1)
  end.
Proof.
  unfold run. rewrite run_env_bind.
  destruct (run_env [] p s) as [[t1 o1] s1].
  rewrite skipn_nil. reflexivity.
Qed.

Lemma within_bind {A B : Type} P sets (p : prog A) (f : A -> prog B) :
  within P sets p -> (forall a, within P sets (f a)) -> within P sets (bind p f).
Proof.
  induction p as [a | e | k IH | b k IH | op k IH]; simpl; intros Hp Hf; auto.
  - destruct Hp; auto.
  - destruct Hp; auto.
Qed.

Lemma within_lift {A : Type} P sets (r : result A) : within P sets (lift r).
Proof. destruct r; exact I. Qed.

Lemma within_for_acc {A S : Type} P sets (body : S -> A -> prog S) (xs : list A) :
  (forall acc x, within P sets (body acc x)) ->
  forall acc, within P sets (for_acc xs acc body).
Proof.
  intros Hb. induction xs as [ | x xs IH]; intros acc; simpl.
  - exact I.
  - apply within_bind; auto.
Qed.

Lemma within_for_each {A : Type} P sets (body : A -> prog unit) (xs : list A) :
  (forall x, within P sets (body x)) -> within P sets (for_each xs body).
Proof.
  intros Hb. induction xs as [ | x xs IH]; simpl.
  - exact I.
  - apply within_bind; auto.
Qed.

(** A program makes only the calls of its footprint. *)
Lemma within_trace {A : Type} P sets (p : prog A) :
  within P sets p ->
  forall env s, Forall (fun e => P (ev_op e) = true) (trace_of (run_env env p s)).
Proof.
  induction p as [a | e | k IH | b k IH | op k IH]; simpl; intros Hp env s.
  - constructor.
  - constructor.
  - apply IH, Hp.
  - apply IH, Hp.
  - destruct Hp as [Hop Hk].
    destruct (handle op (env_act env (world s))) as [r w].
    specialize (IH r (Hk r) (tl env) (set_world s w)).
    destruct (run_env (tl env) (k r) (set_world s w)) as [[t o] s'].
    constructor; assumption.
Qed.

(** A program that never assigns to [self] leaves the object as it was. *)
Lemma within_self {A : Type} P (p : prog A) :
  within P false p ->
  forall env s, self (final (run_env env p s)) = self s.
Proof.
  induction p as [a | e | k IH | b k IH | op k IH]; simpl; intros Hp env s.
  - reflexivity.
  - reflexivity.
  - apply IH, Hp.
  - destruct Hp as [Hs _]. discriminate.
  - destruct Hp as [Hop Hk].
    destruct (handle op (env_act env (world s))) as [r w].
    specialize (IH r (Hk r) (tl env) (set_world s w)).
    destruct (run_env (tl env) (k r) (set_world s w)) as [[t o] s'].
    exact IH.
Qed.

(* ================================================================== *)
(** * Change detection *)

Lemma scan_app root since l1 l2 acc :
  scan root since (l1 ++ l2) acc =
  match scan root since l1 acc with
  | Ok acc' => scan root since l2 acc'
  | Err e => Err e
  end.
Proof.
  revert acc. induction l1 as [ | f l1 IH]; intros acc; simpl.
  - reflexivity.
  - destruct (fs_getmtime root f) as [m | e]; [ apply IH | reflexivity ].
Qed.

Lemma scan_ok root since l :
  forall acc, Forall (stat_ok root) l ->
    scan root since l acc = Ok (acc ++ filter (keeps root since) l).
Proof.
  induction l as [ | f l IH]; intros acc Hall; simpl.
  - rewrite app_nil_r. reflexivity.
  - inversion Hall as [ | ? ? [m Hm] Hl]; subst.
    unfold keeps at 1. rewrite Hm.
    rewrite IH by assumption.
    destruct (is_changed since m); [ rewrite <- app_assoc | ]; reflexivity.
Qed.

Lemma scan_ok_inv root since l :
  forall acc r, scan root since l acc = Ok r -> Forall (stat_ok root) l.
Proof.
  induction l as [ | f l IH]; intros acc r H; simpl in H.
  - constructor.
  - destruct (fs_getmtime root f) as [m | e] eqn:Hm; [ | discriminate ].
    constructor; [ exists m; exact Hm | eapply IH; exact H ].
Qed.

Lemma set_world_same (s : State) : set_world s (world s) = s.
Proof. destruct s; reflexivity. Qed.

Lemma run_getmtime {B : Type} (p : path) (f : instant -> prog B) (s : State) :
  run (bind (os_path_getmtime p) f) s =
  match fs_getmtime (fs (world s)) p with
  | Ok m =>
      let '(t, o, s') := run (f m) s in (Ev (Getmtime p) (Ok m) :: t, o, s')
  | Err e => ([Ev (Getmtime p) (Err e)], Err e, s)
  end.
Proof.
  unfold run. simpl. rewrite set_world_same.
  destruct (fs_getmtime (fs (world s)) p) as [m | e]; reflexivity.
Qed.

Lemma run_check_files since root files :
  forall acc s,
    outcome (run (for_acc files acc (check_file since root)) s)
    = scan (fs (world s)) since (map (join root) files) acc
    /\ final (run (for_acc files acc (check_file since root)) s) = s.
Proof.
  induction files as [ | file files IH]; intros acc s.
  - split; reflexivity.
  - cbn [for_acc map scan]. rewrite run_bind.
    unfold check_file at 1 3. rewrite run_getmtime.
    destruct (fs_getmtime (fs (world s)) (join root file)) as [m | e];
      [ | split; reflexivity ].
    set (acc' := if is_changed since m then acc ++ [join root file] else acc).
    assert (Hbody : run (if is_changed since m
                         then Ret (acc ++ [join root file]) else Ret acc) s
                    = ([], Ok acc', s))
      by (unfold acc'; destruct (is_changed since m); reflexivity).
    rewrite Hbody. destruct (IH acc' s) as [Ho Hf].
    destruct (run (for_acc files acc' (check_file since root)) s) as [[t o] s'].
    exact (conj Ho Hf).
Qed.

Lemma run_check_walked since walked :
  forall acc s,
    outcome (run (for_acc walked acc (check_walked since)) s)
    = scan (fs (world s)) since (walked_files walked) acc
    /\ final (run (for_acc walked acc (check_walked since)) s) = s.
Proof.
  induction walked as [ | [[root dirs] files] walked IH]; intros acc s.
  - split; reflexivity.
  - cbn [for_acc]. rewrite run_bind.
    change (walked_files ((root, dirs, files) :: walked))
      with (map (join root) files ++ walked_files walked).
    rewrite scan_app.
    destruct (run_check_files since root files acc s) as [Ho Hf].
    change (check_walked since acc (root, dirs, files))
      with (for_acc files acc (check_file since root)).
    destruct (run (for_acc files acc (check_file since root)) s) as [[t o] s'].
    simpl in Ho, Hf. subst s'. rewrite <- Ho.
    destruct o as [acc' | e]; [ | split; reflexivity ].
    destruct (IH acc' s) as [Ho' Hf'].
    destruct (run (for_acc walked acc' (check_walked since)) s) as [[t' o'] s'].
    exact (conj Ho' Hf').
Qed.

Lemma run_walk {B : Type} (top : path) (f : _ -> prog B) (s : State) :
  run (bind (walk top) f) s =
  let '(t, o, s') := run (f (os_walk (fs (world s)) top)) s in
  (Ev (Walk top) (os_walk (fs (world s)) top) :: t, o, s').
Proof. unfold run. simpl. rewrite set_world_same. reflexivity. Qed.

Lemma run_check_sources since dirs :
  forall acc s,
    outcome (run (for_acc dirs acc (check_source since)) s)
    = scan (fs (world s)) since
        (flat_map (fun d => walked_files (os_walk (fs (world s)) d)) dirs) acc
    /\ final (run (for_acc dirs acc (check_source since)) s) = s.
Proof.
  induction dirs as [ | d dirs IH]; intros acc s.
  - split; reflexivity.
  - cbn [for_acc flat_map]. rewrite run_bind, scan_app.
    unfold check_source at 1 3. rewrite run_walk.
    destruct (run_check_walked since (os_walk (fs (world s)) d) acc s) as [Ho Hf].
    destruct (run (for_acc (os_walk (fs (world s)) d) acc (check_walked since)) s)
      as [[t o] s'].
    simpl in Ho, Hf. subst s'. rewrite <- Ho.
    destruct o as [acc' | e]; [ | split; reflexivity ].
    destruct (IH acc' s) as [Ho' Hf'].
    destruct (run (for_acc dirs acc' (check_source since)) s) as [[t' o'] s'].
    exact (conj Ho' Hf').
Qed.

Lemma get_changed_files_unfold since :
  get_changed_files since =
  (self <- get_self ;;
   for_acc (source_dirs (config self)) [] (check_source since)).
Proof. reflexivity. Qed.

(** [get_changed_files] computes [scan] over the enumerated paths and
    changes nothing. *)
Lemma run_get_changed_files since s :
  outcome (run (get_changed_files since) s)
  = scan (fs (world s)) since (enumerated s) []
  /\ final (run (get_changed_files since) s) = s.
Proof.
  rewrite get_changed_files_unfold.
  change (run (self <- get_self ;;
               for_acc (source_dirs (config self)) [] (check_source since)) s)
    with (run (for_acc (source_dirs (config (self s))) [] (check_source since)) s).
  apply run_check_sources.
Qed.

Lemma is_changed_iff since m :
  is_changed since m = true <->
  since = None \/ exists t, since = Some t /\ (m > t)%Z.
Proof.
  destruct since as [t | ]; simpl.
  - rewrite Z.gtb_gt. split.
    + intros H. right. exists t. split; [ reflexivity | exact H ].
    + intros [H | [t' [H1 H2]]]; [ discriminate | ]. inversion H1. subst. exact H2.
  - split; [ intros _; left; reflexivity | reflexivity ].
Qed.

(** C2. When the enumeration returns, its result is exactly the enumerated
    paths that pass the test, in enumeration order; an enumerated file is in
    it if and only if [since] is [None] or its modification time is
    strictly greater than [since]; a file modified exactly at [since] is
    left out, and with [None] every file is in. *)
Theorem get_changed_files_strict_boundary :
  forall (since : option instant) (s : State) (changed : list path),
    outcome (run (get_changed_files since) s) = Ok changed ->
    changed = filter (keeps (fs (world s)) since) (enumerated s)
    /\ forall f, In f (enumerated s) ->
         exists m, fs_getmtime (fs (world s)) f = Ok m
           /\ (In f changed <->
               since = None \/ exists t, since = Some t /\ (m > t)%Z)
           /\ (since = Some m -> ~ In f changed)
           /\ (since = None -> In f changed).
Proof.
  intros since s changed Hrun.
  destruct (run_get_changed_files since s) as [Ho _].
  rewrite Ho in Hrun.
  pose proof (scan_ok_inv _ _ _ _ _ Hrun) as Hall.
  rewrite scan_ok in Hrun by exact Hall. simpl in Hrun.
  inversion Hrun as [Hchanged]. split; [ reflexivity | ].
  intros f Hf.
  rewrite Forall_forall in Hall. destruct (Hall f Hf) as [m Hm].
  exists m. split; [ exact Hm | ].
  assert (Hin : In f (filter (keeps (fs (world s)) since) (enumerated s))
                <-> is_changed since m = true).
  { rewrite filter_In. unfold keeps. rewrite Hm. tauto. }
  split; [ | split ].
  - rewrite Hin. apply is_changed_iff.
  - intros Hs. rewrite Hin. subst since. simpl.
    rewrite Z.gtb_ltb, Z.ltb_irrefl. discriminate.
  - intros Hs. rewrite Hin. subst since. reflexivity.
Qed.

Lemma get_changed_files_strict_boundary_witness :
  [["katyrov"; "b.txt"]]
  = filter (keeps (fs (world demo_state)) (Some 10%Z)) (enumerated demo_state)
  /\ forall f, In f (enumerated demo_state) ->
       exists m, fs_getmtime (fs (world demo_state)) f = Ok m
         /\ (In f [["katyrov"; "b.txt"]] <->
             Some 10%Z = None \/ exists t, Some 10%Z = Some t /\ (m > t)%Z)
         /\ (Some 10%Z = Some m -> ~ In f [["katyrov"; "b.txt"]])
         /\ (Some 10%Z = None -> In f [["katyrov"; "b.txt"]]).
Proof.
  apply (get_changed_files_strict_boundary (Some 10%Z) demo_state).
  vm_compute. reflexivity.
Defined.


Lemma run_env_get_self {B : Type} (k : BackupSystem -> prog B) env (s : State) :
  run_env env (bind get_self k) s = run_env env (k (self s)) s.
Proof. reflexivity. Qed.

Lemma within_get_changed_files since :
  within enumerates false (get_changed_files since).
Proof.
  unfold get_changed_files. simpl. intros b.
  apply within_for_acc. intros acc d.
  simpl. split; [ reflexivity | ]. intros walked.
  apply within_for_acc. intros acc' [[root dirs] files].
  apply within_for_acc. intros acc'' file.
  simpl. split; [ reflexivity | ].
  intros [m | e]; simpl; [ destruct (is_changed since m) | ]; exact I.
Qed.













(** Entries that can be stat'ed are not skipped: the unreadable file and
    the link are both reported as changed. *)
Example get_changed_files_keeps_unreadable_and_links :
  outcome (run (get_changed_files (Some 0%Z)) guarded_state)
  = Ok [["katyrov"; "secret"]; ["katyrov"; "link"]].
Proof. vm_compute. reflexivity. Qed.

(** A file that vanishes after it was listed: a.txt is removed between
    [os.walk] and the first [os.path.getmtime]; the enumeration raises
    although every entry could be examined when it started. *)
Example get_changed_files_vanished_file_aborts :
  enumerated demo_state = [["katyrov"; "a.txt"]; ["katyrov"; "b.txt"]]
  /\ map (fs_getmtime (fs (world demo_state))) (enumerated demo_state)
     = [Ok 10%Z; Ok 20%Z]
  /\ outcome (run (get_changed_files (Some 0%Z)) demo_state)
     = Ok [["katyrov"; "a.txt"]; ["katyrov"; "b.txt"]]
  /\ map ev_op (trace_of (run_env vanishing_env (get_changed_files (Some 0%Z)) demo_state))
     = [Walk ["katyrov"]; Getmtime ["katyrov"; "a.txt"]]
  /\ outcome (run_env vanishing_env (get_changed_files (Some 0%Z)) demo_state)
     = Err FileNotFoundError.
Proof. vm_compute. repeat split; reflexivity. Qed.

(* ================================================================== *)
(** * Incremental backup: the two short paths *)

(** C4. With no [last_backup] marker, [incremental_backup] is
    [full_backup]: in every environment it makes the same library calls
    with the same replies (so it enumerates the same files, unfiltered),
    ends in the same state, and returns what [full_backup] returns. *)
Theorem incremental_backup_without_marker_is_full_backup :
  forall (env : schedule_of) (s : State),
    last_backup (config (self s)) = None ->
    run_env env incremental_backup s =
    let '(t, o, s') := run_env env full_backup s in
    (t, match o with Ok backup_path => Ok (Some backup_path) | Err e => Err e end, s').
Proof.
  intros env s Hnone.
  unfold incremental_backup. rewrite run_env_get_self. rewrite Hnone.
  rewrite run_env_bind.
  destruct (run_env env full_backup s) as [[t o] s'].
  destruct o as [backup_path | e]; [ | reflexivity ].
  simpl. rewrite app_nil_r. reflexivity.
Qed.

Lemma incremental_backup_without_marker_is_full_backup_witness :
  run_env [] incremental_backup demo_state =
  let '(t, o, s') := run_env [] full_backup demo_state in
  (t, match o with Ok backup_path => Ok (Some backup_path) | Err e => Err e end, s').
Proof.
  apply (incremental_backup_without_marker_is_full_backup [] demo_state).
  vm_compute. reflexivity.
Defined.

(* ================================================================== *)
(** * Archive construction *)

Lemma path_eqb_refl (p : path) : path_eqb p p = true.
Proof. unfold path_eqb. destruct (list_eq_dec string_dec p p); congruence. Qed.

Lemma path_eqb_eq (p q : path) : path_eqb p q = true -> p = q.
Proof. unfold path_eqb. destruct (list_eq_dec string_dec p q); congruence. Qed.

Lemma existsb_path_In (f : path) (l : list path) :
  In f l -> existsb (path_eqb f) l = true.
Proof.
  intros H. apply existsb_exists. exists f. split; [ exact H | apply path_eqb_refl ].
Qed.

Lemma footprint_readable (P : effect -> bool) (t : trace) :
  (forall op, P op = true -> is_zip_write op = false) ->
  Forall (fun ev => P (ev_op ev) = true) t ->
  existsb unreadable_input t = false.
Proof.
  intros HP Ht. induction Ht as [ | ev t Hev Ht IH]; simpl.
  - reflexivity.
  - unfold unreadable_input at 1. rewrite (HP _ Hev). simpl. exact IH.
Qed.

(** The loop adds members until one cannot be read; then it raises. *)
Lemma run_add_members temp file_list files :
  forall all env s,
    incl files all ->
    let '(t, o, s') := run_env env (for_each files (add_member temp file_list)) s in
    self s' = self s
    /\ Forall (fun ev => zips temp all (ev_op ev) = true) t
    /\ (existsb unreadable_input t = true -> exists e, o = Err e).
Proof.
  induction files as [ | file_path files IH]; intros all env s Hincl.
  - simpl. repeat split; [ constructor | discriminate ].
  - cbn [for_each]. rewrite run_env_bind.
    assert (Hin : In file_path all) by (apply Hincl; left; reflexivity).
    assert (Hrest : incl files all) by (intros x Hx; apply Hincl; right; exact Hx).
    unfold add_member at 1.
    destruct (commonpath file_list) as [common | e]; simpl.
    + destruct (commit _ _) as [r w].
      assert (Hz : zips temp all (ZipWrite temp file_path (relpath file_path common)) = true)
        by (simpl; rewrite path_eqb_refl, (existsb_path_In _ _ Hin); reflexivity).
      destruct r as [[] | e]; simpl.
      * change (match env with [] => [] | _ :: l => l end) with (tl env).
        specialize (IH all (tl env) (set_world s w) Hrest).
        destruct (run_env (tl env) (for_each files (add_member temp file_list))
                    (set_world s w)) as [[t o] s'].
        destruct IH as [Hself [Hfoot Hfail]].
        split; [ exact Hself | ].
        split; [ constructor; [ exact Hz | exact Hfoot ] | ].
        unfold unreadable_input at 1. simpl. exact Hfail.
      * split; [ reflexivity | ].
        split; [ constructor; [ exact Hz | constructor ] | ].
        intros _. exists e. reflexivity.
    + repeat split; [ constructor | discriminate ].
Qed.

Lemma create_archive_unfold archive_path file_list backup_type :
  create_archive archive_path file_list backup_type =
  (zip_open_w (add_suffix archive_path ".temp") ;;
   for_each file_list (add_member (add_suffix archive_path ".temp") file_list) ;;
   seal_archive (add_suffix archive_path ".temp") archive_path).
Proof. reflexivity. Qed.

Lemma within_seal_archive temp archive_path :
  within seals false (seal_archive temp archive_path).
Proof.
  unfold seal_archive. simpl. split; [ reflexivity | ].
  intros [d | e]; simpl; [ | exact I ].
  intros b. split; [ reflexivity | ]. intros tok.
  split; [ reflexivity | ]. intros [[] | e]; simpl; [ | exact I ].
  split; [ reflexivity | ]. intros [[] | e]; simpl; [ | exact I ].
  split; [ reflexivity | ]. intros [[] | e]; simpl; [ | exact I ].
  split; [ reflexivity | ]. intros [[] | e]; simpl; exact I.
Qed.

Lemma run_seal_archive temp archive_path env s :
  let '(t, o, s') := run_env env (seal_archive temp archive_path) s in
  o = Ok tt -> sealed (key (self s)) temp archive_path t.
Proof.
  unfold seal_archive. simpl.
  destruct (fs_read _ temp) as [d | e]; simpl; [ | discriminate ].
  destruct (commit (fs_open_w _ _ _ archive_path) _) as [[[] | e] w1]; simpl;
    [ | discriminate ].
  destruct (commit (fs_write _ _ archive_path _) _) as [[[] | e] w2]; simpl;
    [ | discriminate ].
  destruct (commit (fs_remove _ _ temp) _) as [[[] | e] w3]; simpl;
    [ | discriminate ].
  destruct (fs_getsize _ archive_path) as [[] | e]; simpl; [ | discriminate ].
  intros _. eexists. eexists. reflexivity.
Qed.

Lemma Forall_footprint_weaken (P Q : effect -> bool) (t : trace) :
  (forall op, P op = true -> Q op = true) ->
  Forall (fun ev => P (ev_op ev) = true) t ->
  Forall (fun ev => Q (ev_op ev) = true) t.
Proof. intros HPQ. apply Forall_impl. intros ev. apply HPQ. Qed.

Lemma seals_not_zip_write op : seals op = true -> is_zip_write op = false.
Proof. destruct op; simpl; intros H; try discriminate; reflexivity. Qed.

(** [create_archive] in any environment: it never assigns to [self]; if
    an input file cannot be read it raises having only touched the
    temporary archive; if it returns, the archive was completed first and
    sealed after. *)
Lemma run_create_archive archive_path file_list backup_type env s :
  let temp := add_suffix archive_path ".temp" in
  let '(t, o, s') := run_env env (create_archive archive_path file_list backup_type) s in
  self s' = self s
  /\ Forall (fun ev => archives temp file_list (ev_op ev) = true) t
  /\ (existsb unreadable_input t = true ->
      (exists e, o = Err e)
      /\ Forall (fun ev => zips temp file_list (ev_op ev) = true) t)
  /\ (o = Ok tt ->
      exists tz tsl, t = tz ++ tsl
        /\ Forall (fun ev => zips temp file_list (ev_op ev) = true) tz
        /\ sealed (key (self s)) temp archive_path tsl).
Proof.
  intros temp. rewrite create_archive_unfold. fold temp.
  rewrite run_env_bind.
  assert (Hopen : zips temp file_list (ZipOpenW temp) = true)
    by (simpl; apply path_eqb_refl).
  assert (Hopen' : archives temp file_list (ZipOpenW temp) = true)
    by (unfold archives; rewrite Hopen; reflexivity).
  assert (Hzips : forall op, zips temp file_list op = true ->
                             archives temp file_list op = true)
    by (intros op H; unfold archives; rewrite H; reflexivity).
  assert (Hseals : forall op, seals op = true -> archives temp file_list op = true)
    by (intros op H; unfold archives; rewrite H; apply orb_true_r).
  unfold zip_open_w at 1. cbn [run_env].
  destruct (handle (ZipOpenW temp) (env_act env (world s))) as [[[] | e] w];
    cbn [lift run_env List.length skipn app].
  2:{ split; [ reflexivity | ].
      split; [ constructor; [ exact Hopen' | constructor ] | ].
      split; discriminate. }
  rewrite run_env_bind.
  pose proof (run_add_members temp file_list file_list file_list (tl env)
                (set_world s w) (incl_refl _)) as Hloop.
  change (match env with [] => [] | _ :: l => l end) with (tl env).
  destruct (run_env (tl env) (for_each file_list (add_member temp file_list))
              (set_world s w)) as [[t1 o1] s1].
  destruct Hloop as [Hself1 [Hfoot1 Hfail1]].
  destruct o1 as [[] | e].
  2:{ split; [ exact Hself1 | ].
      split; [ constructor;
               [ exact Hopen'
               | eapply Forall_footprint_weaken; [ exact Hzips | exact Hfoot1 ] ] | ].
      split; [ | discriminate ].
      intros _. split; [ exists e; reflexivity | ].
      constructor; [ exact Hopen | exact Hfoot1 ]. }
  pose proof (within_trace seals false _ (within_seal_archive temp archive_path)
                (skipn (List.length t1) (tl env)) s1) as Hfoot2.
  pose proof (within_self seals _ (within_seal_archive temp archive_path)
                (skipn (List.length t1) (tl env)) s1) as Hself2.
  pose proof (run_seal_archive temp archive_path
                (skipn (List.length t1) (tl env)) s1) as Hseal.
  destruct (run_env (skipn (List.length t1) (tl env))
              (seal_archive temp archive_path) s1) as [[t2 o2] s2].
  simpl in Hfoot2, Hself2.
  split; [ rewrite Hself2; exact Hself1 | ].
  split.
  { constructor; [ exact Hopen' | ].
    apply Forall_app. split.
    - eapply Forall_footprint_weaken; [ exact Hzips | exact Hfoot1 ].
    - eapply Forall_footprint_weaken; [ exact Hseals | exact Hfoot2 ]. }
  split.
  { cbn [existsb]. unfold unreadable_input at 1. cbn [ev_op is_zip_write andb orb].
    rewrite existsb_app.
    rewrite (footprint_readable seals t2 seals_not_zip_write Hfoot2).
    rewrite orb_false_r. intros H. destruct (Hfail1 H) as [e He]. discriminate. }
  intros Ho. exists (Ev (ZipOpenW temp) (Ok tt) :: t1), t2.
  split; [ reflexivity | ].
  split; [ constructor; [ exact Hopen | exact Hfoot1 ] | ].
  change (self (set_world s w)) with (self s) in Hself1.
  rewrite <- Hself1. apply Hseal. exact Ho.
Qed.

(* ================================================================== *)
(** * The shape of a backup run *)

Lemma run_record_backup {B : Type} mk entry (r : B) env s :
  let tm := now (env_act env (world s)) in
  let doc := append_history (set_last_backup (config (self s)) (mk tm)) entry in
  let '(t, o, s') := run_env env (record_backup mk entry r) s in
  self s' = set_config (self s) doc
  /\ exists tsave, t = Ev TimeTime tm :: tsave
       /\ saved (config_file (self s)) doc r tsave o.
Proof.
  unfold record_backup, save_config. cbn.
  destruct (fs_open_w _ _ _ _) as [f1 | e1]; cbn.
  - destruct (fs_write _ _ _ _) as [f2 | e2]; cbn.
    + split; [ reflexivity | ]. eexists. split; [ reflexivity | ].
      right. right. split; reflexivity.
    + split; [ reflexivity | ]. eexists. split; [ reflexivity | ].
      right. left. exists e2. split; reflexivity.
  - split; [ reflexivity | ]. eexists. split; [ reflexivity | ].
    left. exists e1. split; reflexivity.
Qed.

Lemma run_archive_and_record {B : Type} backup_path files kind timestamp count (r : B)
  env s :
  let '(t, o, s') :=
    run_env env (archive_and_record backup_path files kind timestamp count r) s in
  aborted (add_suffix backup_path ".temp") files s t o s'
  \/ recorded kind timestamp count backup_path files r s t o s'.
Proof.
  unfold archive_and_record. rewrite run_env_bind.
  pose proof (run_create_archive backup_path files kind env s) as Harch.
  cbv zeta in Harch.
  destruct (run_env env (create_archive backup_path files kind) s) as [[t1 o1] s1].
  destruct Harch as [Hself [Hfoot [Hfail Hok]]].
  destruct o1 as [[] | e]; cbv beta iota.
  - destruct (Hok eq_refl) as [tz [tsl [Ht1 [Hz Hsl]]]].
    pose proof (run_record_backup
                  (fun t => {| m_type := kind; m_time := t;
                               m_files_count := List.length files |})
                  {| h_type := kind; h_time := timestamp; h_path := backup_path;
                     h_files_count := count |} r
                  (skipn (List.length t1) env) s1) as Hrec.
    cbv zeta in Hrec.
    destruct (run_env (skipn (List.length t1) env) (record_backup _ _ r) s1)
      as [[t2 o2] s2].
    destruct Hrec as [Hself2 [tsave [Ht2 Hsaved]]].
    right.
    exists tz, tsl, tsave, (now (env_act (skipn (List.length t1) env) (world s1))).
    cbv zeta. rewrite Hself in Hself2, Hsaved.
    split; [ subst t1 t2; rewrite <- app_assoc; reflexivity | ].
    split; [ exact Hz | ].
    split.
    { destruct (existsb unreadable_input tz) eqn:Hex; [ | reflexivity ].
      assert (H : existsb unreadable_input t1 = true)
        by (subst t1; rewrite existsb_app, Hex; reflexivity).
      destruct (Hfail H) as [[e He] _]. discriminate. }
    split; [ exact Hsl | ].
    split; [ exact Hself2 | exact Hsaved ].
  - left. split; [ exact Hself | ].
    split; [ exists e; reflexivity | ].
    split; [ exact Hfoot | ].
    intros H. apply Hfail. exact H.
Qed.

Lemma within_collect_files dirs : within prepares false (collect_files dirs).
Proof.
  unfold collect_files. apply within_for_acc. intros acc d.
  simpl. split; [ reflexivity | ]. intros walked.
  apply within_for_acc. intros acc' [[root ds] files].
  apply within_for_acc. intros acc'' file. exact I.
Qed.

Lemma aborted_nil {B : Type} temp files s e :
  @aborted B temp files s [] (Err e) s.
Proof.
  split; [ reflexivity | ]. split; [ exists e; reflexivity | ].
  split; [ constructor | intros _; constructor ].
Qed.

Lemma aborted_self {B : Type} temp files s s1 t (o : result B) s' :
  self s1 = self s -> aborted temp files s1 t o s' -> aborted temp files s t o s'.
Proof.
  intros Hs [H1 H2]. split; [ rewrite H1; exact Hs | exact H2 ].
Qed.

Lemma recorded_self {B : Type} kind timestamp count backup_path files (r : B)
  s s1 t o s' :
  self s1 = self s ->
  recorded kind timestamp count backup_path files r s1 t o s' ->
  recorded kind timestamp count backup_path files r s t o s'.
Proof.
  intros Hs (tz & tsl & tsave & tm & H). exists tz, tsl, tsave, tm.
  cbv zeta in *. rewrite Hs in H. exact H.
Qed.

Lemma run_full_backup env s :
  let '(t, o, s') := run_env env full_backup s in
  backup_run "full" "тест_full_" (fun _ => None) (fun p => p) (fun _ => True)
    s t o s'.
Proof.
  unfold full_backup, now_strftime, get_self, os_makedirs. cbn [bind run_env handle].
  set (w0 := env_act env (world s)).
  set (timestamp := now_label w0).
  set (s0 := set_world s w0).
  change (self s0) with (self s).
  set (backup_path :=
         join (backup_dir (config (self s))) ("тест_full_" ++ timestamp ++ ".zip")%string).
  destruct (commit _ _) as [[[] | e] w1]; cbn [lift bind].
  2:{ cbn [run_env]. exists timestamp, [], [Ev NowStrftime timestamp;
                                     Ev (Makedirs (backup_dir (config (self s)))) (Err e)], [].
      cbv zeta. split; [ exact I | ]. split; [ reflexivity | ].
      split; [ repeat constructor | ].
      left. apply (aborted_self _ _ s (set_world s0 w1));
        [ reflexivity | apply aborted_nil ]. }
  set (s1 := set_world s0 w1).
  fold (collect_files (source_dirs (config (self s)))).
  rewrite run_env_bind.
  pose proof (within_trace prepares false _
                (within_collect_files (source_dirs (config (self s))))
                (tl (tl env)) s1) as Hfoot.
  pose proof (within_self prepares _
                (within_collect_files (source_dirs (config (self s))))
                (tl (tl env)) s1) as Hself.
  destruct (run_env (tl (tl env)) (collect_files (source_dirs (config (self s)))) s1)
    as [[tw ow] s2].
  simpl in Hfoot, Hself.
  destruct ow as [all_files | e]; cbv beta iota.
  2:{ exists timestamp, [], (Ev NowStrftime timestamp
                       :: Ev (Makedirs (backup_dir (config (self s)))) (Ok tt) :: tw), [].
      cbv zeta. split; [ exact I | ]. split; [ rewrite app_nil_r; reflexivity | ].
      split; [ repeat constructor; exact Hfoot | ].
      left. apply (aborted_self _ _ s s2); [ exact Hself | apply aborted_nil ]. }
  pose proof (run_archive_and_record backup_path all_files "full" timestamp None
                backup_path (skipn (List.length tw) (tl (tl env))) s2) as Hrest.
  change (archive_and_record backup_path all_files "full" timestamp None backup_path)
    with (create_archive backup_path all_files "full" ;;
          t <- time_time ;;
          self <- get_self ;;
          put_self (set_config self (set_last_backup (config self)
            {| m_type := "full"; m_time := t;
               m_files_count := List.length all_files |})) ;;
          self <- get_self ;;
          put_self (set_config self (append_history (config self)
            {| h_type := "full"; h_time := timestamp; h_path := backup_path;
               h_files_count := None |})) ;;
          save_config ;;
          Ret backup_path) in Hrest.
  unfold get_self in Hrest.
  destruct (run_env (skipn (List.length tw) (tl (tl env))) _ s2) as [[t3 o3] s3].
  exists timestamp, all_files,
    (Ev NowStrftime timestamp
       :: Ev (Makedirs (backup_dir (config (self s)))) (Ok tt) :: tw), t3.
  cbv zeta. split; [ exact I | ]. split; [ reflexivity | ].
  split; [ repeat constructor; exact Hfoot | ].
  destruct Hrest as [Hab | Hrec].
  - left. apply (aborted_self _ _ s s2); [ exact Hself | exact Hab ].
  - right. apply (recorded_self _ _ _ _ _ _ s s2); [ exact Hself | exact Hrec ].
Qed.

Lemma backup_run_some kind tag count chosen s t o s' :
  backup_run kind tag count (fun p => p) chosen s t o s' ->
  backup_run kind tag count Some chosen s t (some_path o) s'.
Proof.
  intros (timestamp & files & tpre & trest & H). cbv zeta in H.
  destruct H as [Hq [Ht [Hpre Hrest]]].
  exists timestamp, files, tpre, trest. cbv zeta.
  split; [ exact Hq | ]. split; [ exact Ht | ]. split; [ exact Hpre | ].
  destruct Hrest as [Hab | Hrec].
  - left. destruct Hab as [H1 [[e He] H3]]. subst o.
    split; [ exact H1 | ]. split; [ exists e; reflexivity | exact H3 ].
  - right. destruct Hrec as (tz & tsl & tsave & tm & Hrec). cbv zeta in Hrec.
    destruct Hrec as (H1 & H2 & H3 & H4 & H5 & H6).
    exists tz, tsl, tsave, tm. cbv zeta.
    repeat (split; [ assumption | ]).
    destruct H6 as [[e [Hs Ho]] | [[e [Hs Ho]] | [Hs Ho]]]; subst o.
    + left. exists e. split; [ exact Hs | reflexivity ].
    + right. left. exists e. split; [ exact Hs | reflexivity ].
    + right. right. split; [ exact Hs | reflexivity ].
Qed.

Lemma enumerates_prepares op : enumerates op = true -> prepares op = true.
Proof. destruct op; simpl; intros H; try discriminate; reflexivity. Qed.

Lemma run_incremental_backup env s :
  let '(t, o, s') := run_env env incremental_backup s in
  match last_backup (config (self s)) with
  | None =>
      backup_run "full" "тест_full_" (fun _ => None) Some (fun _ => True) s t o s'
  | Some marker =>
      nothing_to_do s t o s'
      \/ backup_run "incremental" "тест_inc_" (fun files => Some (List.length files))
           Some
           (fun files =>
              files = [] \/
              outcome (run_env env (get_changed_files (Some (m_time marker))) s)
              = Ok files)
           s t o s'
  end.
Proof.
  unfold incremental_backup. rewrite run_env_get_self.
  destruct (last_backup (config (self s))) as [marker | ].
  2:{ rewrite run_env_bind.
      pose proof (run_full_backup env s) as Hfull.
      destruct (run_env env full_backup s) as [[t o] s'].
      apply backup_run_some in Hfull.
      destruct o as [backup_path | e]; cbv beta iota.
      - cbn [run_env]. rewrite app_nil_r. exact Hfull.
      - exact Hfull. }
  rewrite run_env_bind.
  pose proof (within_trace enumerates false _
                (within_get_changed_files (Some (m_time marker))) env s) as Hfoot.
  pose proof (within_self enumerates _
                (within_get_changed_files (Some (m_time marker))) env s) as Hself.
  destruct (run_env env (get_changed_files (Some (m_time marker))) s)
    as [[te oe] s1].
  unfold outcome; cbn [fst snd].
  simpl in Hfoot, Hself.
  assert (Hpre : Forall (fun ev => prepares (ev_op ev) = true) te)
    by (eapply Forall_footprint_weaken; [ exact enumerates_prepares | exact Hfoot ]).
  destruct oe as [[ | f changed] | e]; cbv beta iota.
  - left. cbn [run_env]. rewrite app_nil_r.
    split; [ reflexivity | ]. split; [ exact Hself | exact Hfoot ].
  - unfold now_strftime, get_self. cbn [bind run_env handle].
    set (env1 := skipn (List.length te) env).
    set (w1 := env_act env1 (world s1)).
    set (timestamp := now_label w1).
    set (s2 := set_world s1 w1).
    change (self s2) with (self s1). rewrite Hself.
    set (backup_path :=
           join (backup_dir (config (self s))) ("тест_inc_" ++ timestamp ++ ".zip")%string).
    pose proof (run_archive_and_record backup_path (f :: changed) "incremental"
                  timestamp (Some (List.length (f :: changed)))
                  (Some backup_path) (tl env1) s2) as Hrest.
    change (archive_and_record backup_path (f :: changed) "incremental" timestamp
              (Some (List.length (f :: changed))) (Some backup_path))
      with (create_archive backup_path (f :: changed) "incremental" ;;
            t <- time_time ;;
            self <- get_self ;;
            put_self (set_config self (set_last_backup (config self)
              {| m_type := "incremental"; m_time := t;
                 m_files_count := List.length (f :: changed) |})) ;;
            self <- get_self ;;
            put_self (set_config self (append_history (config self)
              {| h_type := "incremental"; h_time := timestamp; h_path := backup_path;
                 h_files_count := Some (List.length (f :: changed)) |})) ;;
            save_config ;;
            Ret (Some backup_path)) in Hrest.
    unfold get_self in Hrest.
    destruct (run_env (tl env1) _ s2) as [[t3 o3] s3].
    cbv beta iota. right.
    exists timestamp, (f :: changed), (te ++ [Ev NowStrftime timestamp]), t3.
    cbv zeta. split; [ right; reflexivity | ].
    split; [ rewrite <- app_assoc; reflexivity | ].
    split; [ apply Forall_app; split; [ exact Hpre | repeat constructor ] | ].
    destruct Hrest as [Hab | Hrec].
    + left. apply (aborted_self _ _ s s2); [ exact Hself | exact Hab ].
    + right. apply (recorded_self _ _ _ _ _ _ s s2); [ exact Hself | exact Hrec ].
  - right. exists "", [], te, []. cbv zeta.
    split; [ left; reflexivity | ].
    split; [ rewrite app_nil_r; reflexivity | ].
    split; [ exact Hpre | ].
    left. apply (aborted_self _ _ s s1); [ exact Hself | apply aborted_nil ].
Qed.

(* ================================================================== *)
(** * The claims about backup runs *)

Lemma saved_outcome {B : Type} cf doc (r : B) t o :
  saved cf doc r t o -> o = Ok r \/ exists e, o = Err e.
Proof.
  intros [[e [_ Ho]] | [[e [_ Ho]] | [_ Ho]]]; subst o;
    [ right; exists e | right; exists e | left ]; reflexivity.
Qed.

(** A backup run never returns Python's [None]. *)
Lemma backup_run_returns_path kind tag count chosen s t o s' :
  backup_run kind tag count Some chosen s t o s' -> o <> Ok None.
Proof.
  intros (timestamp & files & tpre & trest & H). cbv zeta in H.
  destruct H as [_ [_ [_ [Hab | Hrec]]]].
  - destruct Hab as [_ [[e He] _]]. subst o. discriminate.
  - destruct Hrec as (tz & tsl & tsave & tm & Hrec). cbv zeta in Hrec.
    destruct Hrec as (_ & _ & _ & _ & _ & Hs).
    destruct (saved_outcome _ _ _ _ _ Hs) as [Ho | [e Ho]]; subst o; discriminate.
Qed.

(** C3. With a marker and an empty changed set, [incremental_backup]
    returns [None] and leaves the whole state (file system, clock, [self]
    with its marker and history) exactly as it was, having made only the
    walking and stat calls of the enumeration: nothing is archived,
    encrypted or written.  And [None] is returned by no other run: in any
    environment, a run that returns [None] made only those calls and kept
    [self], so a completed backup never returns it. *)
Theorem incremental_backup_without_changes_is_noop :
  forall (s : State) (marker : Marker),
    last_backup (config (self s)) = Some marker ->
    outcome (run (get_changed_files (Some (m_time marker))) s) = Ok [] ->
    outcome (run incremental_backup s) = Ok None
    /\ final (run incremental_backup s) = s
    /\ Forall (fun ev => enumerates (ev_op ev) = true)
              (trace_of (run incremental_backup s))
    /\ forall env s0,
         outcome (run_env env incremental_backup s0) = Ok None ->
         self (final (run_env env incremental_backup s0)) = self s0
         /\ Forall (fun ev => enumerates (ev_op ev) = true)
                   (trace_of (run_env env incremental_backup s0)).
Proof.
  intros s marker Hmarker Hnone.
  assert (Hrun : run incremental_backup s
                 = (trace_of (run (get_changed_files (Some (m_time marker))) s),
                    Ok None, s)).
  { unfold run, incremental_backup. rewrite run_env_get_self, Hmarker.
    rewrite run_env_bind.
    destruct (run_get_changed_files (Some (m_time marker)) s) as [_ Hfinal].
    unfold run in Hnone, Hfinal.
    destruct (run_env [] (get_changed_files (Some (m_time marker))) s)
      as [[t o] s1].
    unfold outcome, final, trace_of in *. cbn [fst snd] in *. subst o s1.
    cbn [run_env]. rewrite app_nil_r. reflexivity. }
  rewrite Hrun. unfold outcome, final, trace_of. cbn [fst snd].
  split; [ reflexivity | ]. split; [ reflexivity | ].
  split.
  { apply (within_trace enumerates false _
             (within_get_changed_files (Some (m_time marker))) [] s). }
  intros env s0 H0.
  pose proof (run_incremental_backup env s0) as Hshape.
  destruct (run_env env incremental_backup s0) as [[t o] s'].
  unfold outcome in H0. cbn [fst snd] in *. subst o.
  destruct (last_backup (config (self s0))) as [m0 | ].
  - destruct Hshape as [[_ [Hself Hfoot]] | Hbackup].
    + split; assumption.
    + exfalso. exact (backup_run_returns_path _ _ _ _ _ _ _ _ Hbackup eq_refl).
  - exfalso. exact (backup_run_returns_path _ _ _ _ _ _ _ _ Hshape eq_refl).
Qed.

Lemma incremental_backup_without_changes_is_noop_witness :
  outcome (run incremental_backup backed_up_state) = Ok None
  /\ final (run incremental_backup backed_up_state) = backed_up_state
  /\ Forall (fun ev => enumerates (ev_op ev) = true)
            (trace_of (run incremental_backup backed_up_state))
  /\ forall env s0,
       outcome (run_env env incremental_backup s0) = Ok None ->
       self (final (run_env env incremental_backup s0)) = self s0
       /\ Forall (fun ev => enumerates (ev_op ev) = true)
                 (trace_of (run_env env incremental_backup s0)).
Proof.
  apply (incremental_backup_without_changes_is_noop backed_up_state
           {| m_type := "full"; m_time := 100%Z; m_files_count := 2 |}).
  - vm_compute. reflexivity.
  - vm_compute. reflexivity.
Defined.

Lemma add_suffix_join (d : path) (name suffix : string) :
  add_suffix (join d name) suffix = join d (name ++ suffix)%string.
Proof.
  unfold join. induction d as [ | c d IH]; [ reflexivity | ].
  cbn [app add_suffix]. rewrite IH.
  destruct (d ++ [name]) eqn:E; [ destruct d; discriminate | reflexivity ].
Qed.


Lemma length_append (a b : string) :
  String.length (a ++ b)%string = String.length a + String.length b.
Proof. induction a as [ | c a IH]; simpl; [ reflexivity | rewrite IH; reflexivity ]. Qed.

Lemma substring_append_skip (a b : string) (n m : nat) :
  substring (String.length a + n) m (a ++ b)%string = substring n m b.
Proof. induction a as [ | c a IH]; simpl; [ reflexivity | exact IH ]. Qed.



Lemma prepares_not_zip_write op : prepares op = true -> is_zip_write op = false.
Proof. destruct op; simpl; intros H; try discriminate; reflexivity. Qed.




(* ================================================================== *)
(** * The history *)

Lemma within_leaf {A : Type} (P : effect -> bool) sets (op : effect)
  (k : reply op -> prog A) :
  P op = true -> (forall r, within P sets (k r)) -> within P sets (Do op k).
Proof. intros H1 H2. split; assumption. Qed.

Lemma within_extract_member targetdir member :
  within any_call false (extract_member targetdir member).
Proof.
  unfold extract_member. apply within_bind.
  - destruct (removelast _); [ exact I | ].
    apply within_leaf; [ reflexivity | ]. intros [ | ]; simpl; [ exact I | ].
    split; [ reflexivity | ]. intros r. apply within_lift.
  - intros _. destruct (snd member) as [content | ].
    + simpl. split; [ reflexivity | ]. intros [[] | e]; simpl; [ | exact I ].
      split; [ reflexivity | ]. intros r. apply within_lift.
    + simpl. split; [ reflexivity | ]. intros [ | ]; simpl; [ exact I | ].
      split; [ reflexivity | ]. intros r. apply within_lift.
Qed.

Lemma within_restore_backup backup_path restore_dir :
  within any_call false (restore_backup backup_path restore_dir).
Proof.
  unfold restore_backup. simpl. split; [ reflexivity | ].
  intros [encrypted_data | e]; simpl; [ | exact I ]. intros b.
  apply within_bind; [ apply within_lift | ]. intros decrypted_data.
  simpl. split; [ reflexivity | ]. intros [[] | e]; simpl; [ | exact I ].
  split; [ reflexivity | ]. intros [[] | e]; simpl; [ | exact I ].
  split; [ reflexivity | ]. intros [[] | e]; simpl; [ | exact I ].
  split; [ reflexivity | ]. intros [archive | e]; simpl; [ | exact I ].
  apply within_bind; [ apply within_lift | ]. intros members.
  apply within_bind.
  - apply within_for_each. intros member. apply within_extract_member.
  - intros _. simpl. split; [ reflexivity | ]. intros r. apply within_lift.
Qed.

Lemma within_save_config : within any_call false save_config.
Proof.
  unfold save_config. simpl. intros b. split; [ reflexivity | ].
  intros [[] | e]; simpl; [ | exact I ]. intros b'.
  split; [ reflexivity | ]. intros r. apply within_lift.
Qed.

Lemma within_load_config : within any_call false load_config.
Proof.
  unfold load_config. simpl. intros b. split; [ reflexivity | ].
  intros [ | ]; simpl; [ | exact I ].
  split; [ reflexivity | ]. intros [[ | | | ] | e]; simpl; exact I.
Qed.

(** What a backup run does to the history: nothing when it aborted, one
    entry at the end when it recorded the backup. *)
Lemma backup_run_history {B : Type} kind tag count (ret : path -> B) chosen
  s t o s' :
  backup_run kind tag count ret chosen s t o s' ->
  (history s' = history s /\ exists e, o = Err e)
  \/ exists timestamp files,
       let backup_path :=
         join (backup_dir (config (self s))) (tag ++ timestamp ++ ".zip")%string in
       history s' = history s ++ [{| h_type := kind; h_time := timestamp;
                                     h_path := backup_path;
                                     h_files_count := count files |}]
       /\ (o = Ok (ret backup_path) \/ exists e, o = Err e).
Proof.
  intros (timestamp & files & tpre & trest & H). cbv zeta in H.
  destruct H as [_ [_ [_ [Hab | Hrec]]]].
  - left. destruct Hab as [Hself [Herr _]]. unfold history. rewrite Hself.
    split; [ reflexivity | exact Herr ].
  - right. exists timestamp, files. cbv zeta.
    destruct Hrec as (tz & tsl & tsave & tm & Hrec). cbv zeta in Hrec.
    destruct Hrec as (_ & _ & _ & _ & Hself & Hsaved).
    unfold history. rewrite Hself.
    split; [ reflexivity | eapply saved_outcome; exact Hsaved ].
Qed.

(** C9. In any environment: [full_backup] and [incremental_backup] leave
    the history as it was or append one entry at its end, and a backup that
    returns its path appended exactly one entry, for that path; a run with
    nothing to do, and every other operation ([restore_backup],
    [create_archive], [get_changed_files], [save_config], [load_config]),
    leaves the history as it was.  Earlier entries are never reordered,
    changed or removed. *)
Theorem backup_history_is_append_only :
  forall (env : schedule_of) (s : State),
    ((exists added, history (final (run_env env full_backup s)) = history s ++ added
                    /\ List.length added <= 1)
     /\ forall backup_path,
          outcome (run_env env full_backup s) = Ok backup_path ->
          exists entry,
            history (final (run_env env full_backup s)) = history s ++ [entry]
            /\ h_path entry = backup_path /\ h_type entry = "full")
    /\ ((exists added,
           history (final (run_env env incremental_backup s)) = history s ++ added
           /\ List.length added <= 1)
        /\ (forall backup_path,
              outcome (run_env env incremental_backup s) = Ok (Some backup_path) ->
              exists entry,
                history (final (run_env env incremental_backup s))
                = history s ++ [entry]
                /\ h_path entry = backup_path)
        /\ (outcome (run_env env incremental_backup s) = Ok None ->
            history (final (run_env env incremental_backup s)) = history s))
    /\ (forall backup_path restore_dir,
          history (final (run_env env (restore_backup backup_path restore_dir) s))
          = history s)
    /\ (forall archive_path file_list backup_type,
          history (final (run_env env
                            (create_archive archive_path file_list backup_type) s))
          = history s)
    /\ (forall since,
          history (final (run_env env (get_changed_files since) s)) = history s)
    /\ history (final (run_env env save_config s)) = history s
    /\ history (final (run_env env load_config s)) = history s.
Proof.
  intros env s.
  assert (Hfull : forall (B : Type) kind tag count (ret : path -> B) chosen t o s',
             backup_run kind tag count ret chosen s t o s' ->
             (exists added, history s' = history s ++ added /\ List.length added <= 1)
             /\ forall r, o = Ok r ->
                  exists entry, history s' = history s ++ [entry]
                    /\ ret (h_path entry) = r /\ h_type entry = kind).
  { intros B kind tag count ret chosen t o s' Hrun.
    destruct (backup_run_history _ _ _ _ _ _ _ _ _ Hrun)
      as [[Hsame [e He]] | (timestamp & files & Hone & Ho)]; cbv zeta in *.
    - split.
      + exists []. rewrite app_nil_r. split; [ exact Hsame | simpl; lia ].
      + intros r Hr. subst o. discriminate.
    - split.
      + eexists. split; [ exact Hone | simpl; lia ].
      + intros r Hr. eexists. split; [ exact Hone | ].
        destruct Ho as [Ho | [e Ho]]; subst o; [ | discriminate ].
        inversion Hr. split; reflexivity. }
  split; [ | split; [ | split; [ | split; [ | split; [ | split ] ] ] ] ].
  - pose proof (run_full_backup env s) as Hshape.
    destruct (run_env env full_backup s) as [[t o] s'].
    unfold outcome, final. cbn [fst snd].
    destruct (Hfull _ _ _ _ _ _ _ _ _ Hshape) as [Hadd Hok].
    split; [ exact Hadd | ]. intros backup_path Ho.
    destruct (Hok _ Ho) as [entry [H1 [H2 H3]]]. exists entry. auto.
  - pose proof (run_incremental_backup env s) as Hshape.
    destruct (run_env env incremental_backup s) as [[t o] s'].
    unfold outcome, final. cbn [fst snd].
    assert (Hcase : nothing_to_do s t o s'
                    \/ exists kind tag count chosen,
                         backup_run kind tag count Some chosen s t o s').
    { destruct (last_backup (config (self s))) as [marker | ].
      - destruct Hshape as [H | H]; [ left; exact H | right ].
        do 4 eexists. exact H.
      - right. do 4 eexists. exact Hshape. }
    destruct Hcase as [[Ho [Hself _]] | (kind & tag & count & chosen & Hrun)].
    + assert (Hsame : history s' = history s) by (unfold history; rewrite Hself; reflexivity).
      split; [ | split ].
      * exists []. rewrite app_nil_r. split; [ exact Hsame | simpl; lia ].
      * intros backup_path Hp. subst o. discriminate.
      * intros _. exact Hsame.
    + destruct (Hfull _ _ _ _ _ _ _ _ _ Hrun) as [Hadd Hok].
      split; [ exact Hadd | split ].
      * intros backup_path Ho.
        destruct (Hok _ Ho) as [entry [H1 [H2 _]]]. exists entry.
        split; [ exact H1 | ]. inversion H2. reflexivity.
      * intros Ho. exfalso.
        exact (backup_run_returns_path _ _ _ _ _ _ _ _ Hrun Ho).
  - intros backup_path restore_dir. unfold history.
    rewrite (within_self any_call _ (within_restore_backup backup_path restore_dir)).
    reflexivity.
  - intros archive_path file_list backup_type.
    pose proof (run_create_archive archive_path file_list backup_type env s) as H.
    cbv zeta in H.
    destruct (run_env env (create_archive archive_path file_list backup_type) s)
      as [[t o] s'].
    destruct H as [Hself _]. unfold history, final. cbn [snd]. rewrite Hself.
    reflexivity.
  - intros since. unfold history.
    rewrite (within_self enumerates _ (within_get_changed_files since)). reflexivity.
  - unfold history. rewrite (within_self any_call _ within_save_config). reflexivity.
  - unfold history. rewrite (within_self any_call _ within_load_config). reflexivity.
Qed.

(* ================================================================== *)
(** * When the marker's time is sampled *)

Lemma backup_run_marker {B : Type} kind tag count (ret : path -> B) chosen
  s t o s' r :
  (forall p q, ret p = ret q -> p = q) ->
  backup_run kind tag count ret chosen s t o s' ->
  o = Ok (ret r) ->
  marker_follows_sealing s r t s'.
Proof.
  intros Hinj (timestamp & files & tpre & trest & H) Ho. cbv zeta in H.
  destruct H as [_ [Ht [Hpre [Hab | Hrec]]]].
  - destruct Hab as [_ [[e He] _]]. subst o. discriminate.
  - destruct Hrec as (tz & tsl & tsave & tm & Hrec). cbv zeta in Hrec.
    destruct Hrec as (Hrest & Hz & _ & Hsl & Hself & Hsaved).
    destruct Hsaved as [[e [_ He]] | [[e [_ He]] | [Hsave Hr]]];
      [ subst o; discriminate | subst o; discriminate | ].
    rewrite Ho in Hr. inversion Hr as [Hret]. apply Hinj in Hret. subst r.
    exists files, tpre, tz, tsl, tm. cbv zeta.
    rewrite Hself. cbn [config set_config last_backup append_history set_last_backup
                        option_map m_time].
    subst t trest tsave.
    repeat split; try assumption.
Qed.

Lemma zips_source temp files op g :
  zips temp files op = true -> zip_source op = Some g -> In g files.
Proof.
  destruct op; simpl; try discriminate.
  intros H Hg. inversion Hg. subst g.
  apply andb_true_iff in H. destruct H as [_ H].
  apply existsb_exists in H. destruct H as [x [Hx Heq]].
  apply path_eqb_eq in Heq. subst x. exact Hx.
Qed.

Lemma not_zip_write_source op : is_zip_write op = false -> zip_source op = None.
Proof. destruct op; simpl; intros H; try discriminate; reflexivity. Qed.

Lemma sources_among_footprint (P : effect -> bool) files t :
  (forall op g, P op = true -> zip_source op = Some g -> In g files) ->
  Forall (fun ev => P (ev_op ev) = true) t -> sources_among files t.
Proof.
  intros HP. apply Forall_impl. intros ev Hev g Hg. exact (HP _ _ Hev Hg).
Qed.

Lemma backup_run_sources {B : Type} kind tag count (ret : path -> B) chosen
  s t o s' :
  backup_run kind tag count ret chosen s t o s' ->
  exists files, chosen files /\ sources_among files t.
Proof.
  intros (timestamp & files & tpre & trest & H). cbv zeta in H.
  destruct H as [Hq [Ht [Hpre Hrest]]]. exists files. split; [ exact Hq | ].
  subst t. apply Forall_app. split.
  { eapply sources_among_footprint; [ | exact Hpre ].
    intros op g Hop Hg.
    rewrite (not_zip_write_source op (prepares_not_zip_write op Hop)) in Hg.
    discriminate. }
  assert (Harch : forall temp, forall op g,
             archives temp files op = true -> zip_source op = Some g -> In g files).
  { intros temp op g Hop Hg. unfold archives in Hop.
    apply orb_true_iff in Hop. destruct Hop as [Hop | Hop].
    - eapply zips_source; eassumption.
    - rewrite (not_zip_write_source op (seals_not_zip_write op Hop)) in Hg.
      discriminate. }
  destruct Hrest as [Hab | Hrec].
  - destruct Hab as [_ [_ [Hfoot _]]].
    eapply sources_among_footprint; [ apply Harch | exact Hfoot ].
  - destruct Hrec as (tz & tsl & tsave & tm & Hrec). cbv zeta in Hrec.
    destruct Hrec as (Hrest & Hz & _ & (d & token & Hsl) & _ & Hsaved).
    subst trest tsl. apply Forall_app. split.
    { eapply sources_among_footprint; [ | exact Hz ].
      intros op g Hop Hg. eapply zips_source; eassumption. }
    assert (Hno : forall ev, zip_source (ev_op ev) = None ->
                  forall g, zip_source (ev_op ev) = Some g -> In g files)
      by (intros ev H0 g Hg; rewrite H0 in Hg; discriminate).
    repeat (constructor; [ apply Hno; reflexivity | ]).
    destruct Hsaved as [[e [Hs _]] | [[e [Hs _]] | [Hs _]]]; subst tsave;
      repeat (constructor; [ apply Hno; reflexivity | ]); constructor.
Qed.

Lemma unchanged_not_reported since s changed f m tl :
  outcome (run (get_changed_files since) s) = Ok changed ->
  since = Some tl ->
  fs_getmtime (fs (world s)) f = Ok m ->
  (m <= tl)%Z ->
  ~ In f changed.
Proof.
  intros Hrun Hsince Hm Hle Hin.
  destruct (run_get_changed_files since s) as [Ho _]. rewrite Ho in Hrun.
  pose proof (scan_ok_inv _ _ _ _ _ Hrun) as Hall.
  rewrite scan_ok in Hrun by exact Hall. inversion Hrun as [Hc]. subst changed.
  simpl in Hin. apply filter_In in Hin. destruct Hin as [_ Hk].
  unfold keeps in Hk. rewrite Hm in Hk. subst since. simpl in Hk.
  apply Z.gtb_gt in Hk. lia.
Qed.

(** C10. In any environment, a full or incremental backup that returns
    its path read the clock only after the archive had been written,
    encrypted and stored, and the marker holds that reading, not the time
    of the enumeration.  Consequently, in a state holding a marker, a file
    whose modification time is not strictly greater than the marker's time
    is not in the changed set and is not archived by the next incremental
    run, whenever it was modified. *)
Theorem marker_time_is_sampled_after_sealing :
  forall (env : schedule_of) (s : State),
    (forall backup_path,
        outcome (run_env env full_backup s) = Ok backup_path ->
        marker_follows_sealing s backup_path
          (trace_of (run_env env full_backup s)) (final (run_env env full_backup s)))
    /\ (forall backup_path,
          outcome (run_env env incremental_backup s) = Ok (Some backup_path) ->
          marker_follows_sealing s backup_path
            (trace_of (run_env env incremental_backup s))
            (final (run_env env incremental_backup s)))
    /\ (forall marker f m,
          last_backup (config (self s)) = Some marker ->
          fs_getmtime (fs (world s)) f = Ok m ->
          (m <= m_time marker)%Z ->
          (forall changed,
              outcome (run (get_changed_files (Some (m_time marker))) s) = Ok changed ->
              ~ In f changed)
          /\ Forall (fun ev => zip_source (ev_op ev) <> Some f)
                    (trace_of (run incremental_backup s))).
Proof.
  intros env s. split; [ | split ].
  - intros backup_path Ho.
    pose proof (run_full_backup env s) as Hshape.
    destruct (run_env env full_backup s) as [[t o] s'].
    unfold outcome, trace_of, final in *. cbn [fst snd] in *.
    eapply (backup_run_marker _ _ _ (fun p => p)); [ | exact Hshape | exact Ho ].
    intros p q H. exact H.
  - intros backup_path Ho.
    pose proof (run_incremental_backup env s) as Hshape.
    destruct (run_env env incremental_backup s) as [[t o] s'].
    unfold outcome, trace_of, final in *. cbn [fst snd] in *.
    assert (Hinj : forall p q : path, Some p = Some q -> p = q)
      by (intros p q H; inversion H; reflexivity).
    destruct (last_backup (config (self s))) as [marker | ].
    + destruct Hshape as [[Hnone _] | Hrun].
      * subst o. discriminate.
      * eapply (backup_run_marker _ _ _ Some); [ exact Hinj | exact Hrun | exact Ho ].
    + eapply (backup_run_marker _ _ _ Some); [ exact Hinj | exact Hshape | exact Ho ].
  - intros marker f m Hmarker Hm Hle.
    assert (Hchanged : forall changed,
               outcome (run (get_changed_files (Some (m_time marker))) s) = Ok changed ->
               ~ In f changed).
    { intros changed Hrun.
      eapply unchanged_not_reported; [ exact Hrun | reflexivity | exact Hm | exact Hle ]. }
    split; [ exact Hchanged | ].
    pose proof (run_incremental_backup [] s) as Hshape.
    unfold run.
    destruct (run_env [] incremental_backup s) as [[t o] s'].
    unfold trace_of. cbn [fst snd]. rewrite Hmarker in Hshape.
    destruct Hshape as [[_ [_ Hfoot]] | Hrun].
    + eapply Forall_impl; [ | exact Hfoot ].
      intros ev Hev.
      rewrite (not_zip_write_source (ev_op ev)); [ discriminate | ].
      apply prepares_not_zip_write, enumerates_prepares, Hev.
    + destruct (backup_run_sources _ _ _ _ _ _ _ _ _ Hrun) as [files [Hfiles Hsrc]].
      eapply Forall_impl; [ | exact Hsrc ].
      intros ev Hev Hf. specialize (Hev f Hf).
      destruct Hfiles as [Hnil | Hgcf].
      * subst files. exact Hev.
      * exact (Hchanged files Hgcf Hev).
Qed.

Lemma marker_time_is_sampled_after_sealing_witness :
  marker_follows_sealing demo_state ["backups"; "тест_full_20240101_120000.zip"]
    (trace_of (run_env racing_env full_backup demo_state)) raced_state
  /\ ((forall changed,
          outcome (run (get_changed_files (Some 200%Z)) raced_state) = Ok changed ->
          ~ In ["katyrov"; "a.txt"] changed)
      /\ Forall (fun ev => zip_source (ev_op ev) <> Some ["katyrov"; "a.txt"])
                (trace_of (run incremental_backup raced_state))).
Proof.
  split.
  - apply (proj1 (marker_time_is_sampled_after_sealing racing_env demo_state)).
    vm_compute. reflexivity.
  - apply (proj2 (proj2 (marker_time_is_sampled_after_sealing [] raced_state))
             {| m_type := "full"; m_time := 200%Z; m_files_count := 2 |}
             ["katyrov"; "a.txt"] 150%Z).
    + vm_compute. reflexivity.
    + vm_compute. reflexivity.
    + vm_compute. discriminate.
Defined.

(** The race above loses the update: the archive holds the old content of
    a.txt, the file on disk holds the new one, and the next incremental
    backup finds nothing to do. *)
Example update_between_sealing_and_marker_is_lost :
  fs_read (fs (world raced_state)) ["backups"; "тест_full_20240101_120000.zip"]
  = Ok (Token "A" "B" 150%Z
          (Zip [(["a.txt"], Some (Raw "1")); (["b.txt"], Some (Raw "2"))]))
  /\ fs_read (fs (world raced_state)) ["katyrov"; "a.txt"] = Ok (Raw "1x")
  /\ outcome (run incremental_backup raced_state) = Ok None.
Proof. vm_compute. repeat split; reflexivity. Qed.

(* ================================================================== *)
(** * The cipher *)

(** Backup runs keep the key (and the path of the configuration file). *)
Lemma backup_run_key {B : Type} kind tag count (ret : path -> B) chosen s t o s' :
  backup_run kind tag count ret chosen s t o s' ->
  key (self s') = key (self s) /\ config_file (self s') = config_file (self s).
Proof.
  intros (timestamp & files & tpre & trest & H). cbv zeta in H.
  destruct H as [_ [_ [_ [Hab | Hrec]]]].
  - destruct Hab as [Hself _]. rewrite Hself. split; reflexivity.
  - destruct Hrec as (tz & tsl & tsave & tm & Hrec). cbv zeta in Hrec.
    destruct Hrec as (_ & _ & _ & _ & Hself & _). rewrite Hself. split; reflexivity.
Qed.

(** After [__init__], no method changes the key: the cipher of an
    instance is the same for its whole life. *)
Lemma key_is_kept (env : schedule_of) (s : State) :
  key (self (final (run_env env full_backup s))) = key (self s)
  /\ key (self (final (run_env env incremental_backup s))) = key (self s)
  /\ (forall backup_path restore_dir,
        key (self (final (run_env env (restore_backup backup_path restore_dir) s)))
        = key (self s)).
Proof.
  split; [ | split ].
  - pose proof (run_full_backup env s) as Hshape.
    destruct (run_env env full_backup s) as [[t o] s'].
    exact (proj1 (backup_run_key _ _ _ _ _ _ _ _ _ Hshape)).
  - pose proof (run_incremental_backup env s) as Hshape.
    destruct (run_env env incremental_backup s) as [[t o] s'].
    unfold final. cbn [snd].
    destruct (last_backup (config (self s))) as [marker | ].
    + destruct Hshape as [[_ [Hself _]] | Hrun].
      * rewrite Hself. reflexivity.
      * exact (proj1 (backup_run_key _ _ _ _ _ _ _ _ _ Hrun)).
    + exact (proj1 (backup_run_key _ _ _ _ _ _ _ _ _ Hshape)).
  - intros backup_path restore_dir.
    rewrite (within_self any_call _ (within_restore_backup backup_path restore_dir)).
    reflexivity.
Qed.

(** C1. For every byte string [x] (the empty one included), in any
    environment, [self.cipher.encrypt(x)] returns a token, and
    [self.cipher.decrypt] of that token returns exactly [x], in the state
    the encryption left and in every state of an instance with the same
    key. *)
Theorem decrypt_inverts_encrypt_on_one_instance :
  forall (env env' : schedule_of) (s : State) (x : data),
    exists token,
      outcome (run_env env (cipher_encrypt x) s) = Ok token
      /\ outcome (run_env env' (cipher_decrypt token)
                    (final (run_env env (cipher_encrypt x) s))) = Ok x
      /\ forall s2, key (self s2) = key (self s) ->
           outcome (run_env env' (cipher_decrypt token) s2) = Ok x.
Proof.
  intros env env' s x.
  assert (Hdec : forall token s2,
             fernet_decrypt (key (self s2)) token = Ok x ->
             outcome (run_env env' (cipher_decrypt token) s2) = Ok x).
  { intros token s2 H. unfold cipher_decrypt. rewrite run_env_get_self, H.
    reflexivity. }
  set (w := env_act env (world s)).
  set (token := Token (key (self s)) (entropy w (drawn w)) (now w) x).
  assert (Hrun : run_env env (cipher_encrypt x) s
                 = ([Ev (FernetEncrypt (key (self s)) x) token], Ok token,
                    set_world s (draw w))) by reflexivity.
  rewrite Hrun. unfold outcome at 1, final. cbn [fst snd].
  exists token. split; [ reflexivity | ]. split.
  - apply Hdec. cbn. rewrite String.eqb_refl. reflexivity.
  - intros s2 Hkey. apply Hdec. cbn. rewrite Hkey, String.eqb_refl. reflexivity.
Qed.

(** A token made under another key does not decrypt: [InvalidToken]. *)
Lemma decrypt_under_another_key (env : schedule_of) (s : State) (k iv : string)
  (ts : instant) (x : data) :
  k <> key (self s) ->
  outcome (run_env env (cipher_decrypt (Token k iv ts x)) s) = Err InvalidToken.
Proof.
  intros Hk. unfold cipher_decrypt. rewrite run_env_get_self. cbn.
  destruct (String.eqb_spec (key (self s)) k) as [E | E]; [ | reflexivity ].
  exfalso. apply Hk. symmetry. exact E.
Qed.

(* ================================================================== *)
(** * Archive member names and restore *)

Lemma normpath_loop_plain (p acc : path) :
  forallb plain p = true -> normpath_loop p acc = rev acc ++ p.
Proof.
  revert acc. induction p as [ | c p IH]; intros acc Hp; simpl.
  - rewrite app_nil_r. reflexivity.
  - simpl in Hp. apply andb_true_iff in Hp. destruct Hp as [Hc Hp].
    unfold plain in Hc. apply negb_true_iff in Hc.
    apply orb_false_iff in Hc. destruct Hc as [Hc Hpar].
    rewrite Hc, Hpar. simpl. rewrite (IH _ Hp). simpl.
    rewrite <- app_assoc. reflexivity.
Qed.

Lemma normpath_plain (p : path) : forallb plain p = true -> normpath p = p.
Proof. intros Hp. unfold normpath. rewrite normpath_loop_plain by exact Hp. reflexivity. Qed.

Lemma common_prefix_same (p : path) : common_prefix p p = p.
Proof.
  induction p as [ | c p IH]; simpl; [ reflexivity | ].
  rewrite String.eqb_refl, IH. reflexivity.
Qed.

Lemma clean_plain (p : path) :
  forallb plain p = true ->
  filter (fun c => negb (String.eqb c "" || String.eqb c curdir)) p = p.
Proof.
  induction p as [ | c p IH]; simpl; intros Hp; [ reflexivity | ].
  apply andb_true_iff in Hp. destruct Hp as [Hc Hp].
  unfold plain in Hc. apply negb_true_iff in Hc.
  apply orb_false_iff in Hc. destruct Hc as [Hc _].
  rewrite Hc. simpl. rewrite (IH Hp). reflexivity.
Qed.

(** With a single input file the common path is the file itself, so the
    member's name is "." (the empty component list): the file name is lost. *)
Lemma single_file_arcname (file_path : path) :
  forallb plain file_path = true ->
  commonpath [file_path] = Ok file_path
  /\ relpath file_path file_path = []
  /\ forall temp,
       add_member temp [file_path] file_path = zip_write temp file_path [].
Proof.
  intros Hp.
  assert (Hc : commonpath [file_path] = Ok file_path)
    by (unfold commonpath; simpl; rewrite clean_plain by exact Hp; reflexivity).
  assert (Hr : relpath file_path file_path = []).
  { unfold relpath. rewrite normpath_plain by exact Hp.
    rewrite common_prefix_same, Nat.sub_diag, skipn_all. reflexivity. }
  split; [ exact Hc | ]. split; [ exact Hr | ].
  intros temp. unfold add_member. rewrite Hc. simpl. rewrite Hr. reflexivity.
Qed.

(** With one input file the member is named ".": an instance. *)
Lemma single_file_arcname_witness :
  commonpath [["katyrov"; "a.txt"]] = Ok ["katyrov"; "a.txt"]
  /\ relpath ["katyrov"; "a.txt"] ["katyrov"; "a.txt"] = []
  /\ forall temp,
       add_member temp [["katyrov"; "a.txt"]] ["katyrov"; "a.txt"]
       = zip_write temp ["katyrov"; "a.txt"] [].
Proof.
  apply (single_file_arcname ["katyrov"; "a.txt"]). vm_compute. reflexivity.
Defined.

(** C5 fails for a single file.  The full backup of a tree with one file
    succeeds, but the archive's only member is named "." (the empty
    component list); restoring it into a fresh directory makes
    [extractall] open the restore directory itself for writing, which
    raises, and no file is restored. *)
Theorem single_file_backup_does_not_restore :
  outcome (run full_backup single_state) = Ok demo_archive
  /\ fs_read (fs (world single_backed_up)) demo_archive
     = Ok (Token "A" "B" 100%Z (Zip [([], Some (Raw "1"))]))
  /\ outcome (run (restore_backup demo_archive ["restored"]) single_backed_up)
     = Err IsADirectoryError
  /\ fs_exists
       (fs (world (final (run (restore_backup demo_archive ["restored"])
                            single_backed_up))))
       ["restored"; "a.txt"] = false
  /\ map ev_op (trace_of (run (restore_backup demo_archive ["restored"])
                            single_backed_up))
     = [Read demo_archive;
        OpenW (add_suffix demo_archive ".temp.zip");
        Write (add_suffix demo_archive ".temp.zip") (Zip [([], Some (Raw "1"))]);
        Makedirs ["restored"];
        Read (add_suffix demo_archive ".temp.zip");
        OpenW ["restored"]].
Proof. vm_compute. repeat split; reflexivity. Qed.

(** With two files in one directory the names survive and the restore
    reproduces both files. *)
Example two_files_backup_restores :
  let s1 := final (run full_backup demo_state) in
  let s2 := final (run (restore_backup demo_archive ["restored"]) s1) in
  outcome (run (restore_backup demo_archive ["restored"]) s1) = Ok tt
  /\ fs_read (fs (world s2)) ["restored"; "a.txt"] = Ok (Raw "1")
  /\ fs_read (fs (world s2)) ["restored"; "b.txt"] = Ok (Raw "2").
Proof. vm_compute. repeat split; reflexivity. Qed.

Example incremental_backup_of_one_file_does_not_restore :
  let inc := ["backups"; "тест_inc_20240101_120200.zip"] in
  let s1 := final (run incremental_backup touched_state) in
  outcome (run incremental_backup touched_state) = Ok (Some inc)
  /\ fs_read (fs (world s1)) inc
     = Ok (Token "A" "C" 200%Z (Zip [([], Some (Raw "1x"))]))
  /\ outcome (run (restore_backup inc ["restored"]) s1) = Err IsADirectoryError.
Proof. vm_compute. repeat split; reflexivity. Qed.

(* ================================================================== *)
(** * Saving the configuration *)

Lemma assoc_put_entry (name : string) (new : node) (es : list (string * node)) :
  assoc name (put_entry name new es) = Some new.
Proof.
  induction es as [ | [n child] es IH]; simpl.
  - rewrite String.eqb_refl. reflexivity.
  - destruct (String.eqb n name) eqn:E; simpl; rewrite E; [ reflexivity | exact IH ].
Qed.

(** An entry of the working directory that is absent or a regular file is
    found where it is. *)
Lemma stat_entry (m : instant) (l : bool) (es : list (string * node)) (name : string) :
  plain name = true ->
  stat (Dir m l es) [name]
  = match assoc name es with
    | None => Absent [name]
    | Some (Symlink t) => resolve 39 (Dir m l es) (t ++ [])
    | Some child => Found [name] child
    end.
Proof.
  intros Hp. unfold stat. cbn [resolve].
  rewrite normpath_plain by (simpl; rewrite Hp; reflexivity).
  cbn [walk_path]. destruct (assoc name es) as [[ | | ] | ]; reflexivity.
Qed.

(** C6, amended.  [save_config] rewrites the live configuration file in
    place.  For a configuration file that is an entry of the working
    directory, absent or a readable regular file: the calls made are
    exactly the opening of that file for writing, which truncates it, and
    the writing of the full document into it (no temporary file, no
    rename); a process killed between the two leaves the file empty; a
    save that completes leaves the full document. *)
Theorem save_config_rewrites_in_place :
  forall (s : State) (name : string) (m : instant) (l : bool)
         (es : list (string * node)),
    config_file (self s) = [name] ->
    plain name = true ->
    fs (world s) = Dir m l es ->
    (assoc name es = None \/ exists mt old, assoc name es = Some (File mt true old)) ->
    trace_of (run save_config s)
    = [Ev (OpenW [name]) (Ok tt);
       Ev (Write [name] (Json (config (self s)))) (Ok tt)]
    /\ outcome (run save_config s) = Ok tt
    /\ fs_read (fs (world (crash_after 1 save_config s))) [name] = Ok (Raw "")
    /\ fs_read (fs (world (final (run save_config s)))) [name]
       = Ok (Json (config (self s))).
Proof.
  intros s name m l es Hcf Hp Hfs Hentry.
  set (t := now (world s)).
  set (m1 := match assoc name es with None => t | Some _ => m end).
  set (es1 := put_entry name (File t true (Raw "")) es).
  assert (Hopen : fs_open_w t (Raw "") (fs (world s)) [name] = Ok (Dir m1 l es1)).
  { unfold fs_open_w. rewrite Hfs, stat_entry by exact Hp.
    unfold m1, es1.
    destruct Hentry as [Hnone | [mt [old Hfile]]].
    - rewrite Hnone. cbn [put_at]. rewrite Hnone. reflexivity.
    - rewrite Hfile. cbn [put_at]. rewrite Hfile. reflexivity. }
  assert (Hread1 : fs_read (Dir m1 l es1) [name] = Ok (Raw "")).
  { unfold fs_read. rewrite stat_entry by exact Hp.
    unfold es1. rewrite assoc_put_entry. reflexivity. }
  set (doc := Json (config (self s))).
  set (es2 := put_entry name (File t true doc) es1).
  assert (Hwrite : fs_write t (Dir m1 l es1) [name] doc = Ok (Dir m1 l es2)).
  { unfold fs_write. rewrite stat_entry by exact Hp.
    unfold es1 at 1. rewrite assoc_put_entry. cbn [put_at].
    unfold es1 at 1. rewrite assoc_put_entry. reflexivity. }
  assert (Hread2 : fs_read (Dir m1 l es2) [name] = Ok doc).
  { unfold fs_read. rewrite stat_entry by exact Hp.
    unfold es2. rewrite assoc_put_entry. reflexivity. }
  unfold run, save_config, get_self, open_w, write.
  cbn [bind run_env crash_after env_act tl handle]. rewrite Hcf.
  fold t. rewrite Hopen. cbn [commit lift bind run_env crash_after].
  cbn [self set_world world set_fs fs now]. rewrite Hcf. fold t.
  cbn [handle env_act set_fs fs now]. fold t. fold doc.
  rewrite Hwrite. cbn [commit lift bind run_env].
  unfold trace_of, outcome, final. cbn [fst snd].
  split; [ reflexivity | ]. split; [ reflexivity | ].
  split; [ exact Hread1 | exact Hread2 ].
Qed.

Lemma save_config_rewrites_in_place_witness :
  trace_of (run save_config pending_state)
  = [Ev (OpenW ["backup_config.json"]) (Ok tt);
     Ev (Write ["backup_config.json"] (Json (config (self pending_state)))) (Ok tt)]
  /\ outcome (run save_config pending_state) = Ok tt
  /\ fs_read (fs (world (crash_after 1 save_config pending_state)))
       ["backup_config.json"] = Ok (Raw "")
  /\ fs_read (fs (world (final (run save_config pending_state))))
       ["backup_config.json"] = Ok (Json (config (self pending_state))).
Proof.
  apply (save_config_rewrites_in_place pending_state "backup_config.json" 100%Z true
           (match fs (world pending_state) with
            | Dir _ _ es => es
            | _ => []
            end)).
  - vm_compute. reflexivity.
  - vm_compute. reflexivity.
  - vm_compute. reflexivity.
  - right. vm_compute. eexists. eexists. reflexivity.
Defined.

(** C6, as stated, fails: killed after its first call, [save_config]
    leaves a configuration file that holds neither the previous document
    nor the new one: it is empty. *)
Lemma save_config_is_not_atomic :
  (save_is_atomic pending_state -> False)
  /\ fs_read (fs (world pending_state)) ["backup_config.json"]
     = Ok (Json (config (self backed_up_state)))
  /\ fs_read (fs (world (crash_after 1 save_config pending_state)))
       ["backup_config.json"] = Ok (Raw "").
Proof.
  split; [ | split; vm_compute; reflexivity ].
  intros H. specialize (H 1).
  vm_compute in H. destruct H as [H | H]; discriminate.
Qed.

(* ================================================================== *)
(** * Unreadable input files *)

(** [zipf.write] on a file that cannot be stat'ed or opened raises and
    leaves the world as it is: this is the event [unreadable_input]
    recognises. *)
Lemma zip_write_of_unreadable_file (w : World) (zp filename arcname : path) (e : exn) :
  zip_member (fs w) filename arcname = Err e ->
  handle (ZipWrite zp filename arcname) w = (Err e, w)
  /\ unreadable_input (Ev (ZipWrite zp filename arcname) (Err e)) = true.
Proof.
  intros H. split; [ | reflexivity ].
  cbn [handle]. unfold fs_zip_write. rewrite H. reflexivity.
Qed.

(** A file without read permission, and a name that does not exist, are
    such files. *)
Lemma zip_member_unreadable (m : instant) (l : bool) (es : list (string * node))
  (name : string) (arcname : path) :
  plain name = true ->
  (forall mt d, assoc name es = Some (File mt false d) ->
     zip_member (Dir m l es) [name] arcname = Err PermissionError)
  /\ (assoc name es = None ->
      zip_member (Dir m l es) [name] arcname = Err FileNotFoundError).
Proof.
  intros Hp. split.
  - intros mt d H. unfold zip_member. rewrite stat_entry by exact Hp.
    rewrite H. reflexivity.
  - intros H. unfold zip_member. rewrite stat_entry by exact Hp.
    rewrite H. reflexivity.
Qed.

(* ================================================================== *)
(** * Restarting the process *)

(** [__init__], case by case: no configuration file, one that holds a
    document, one that does not parse, one that cannot be read.  The key
    is the next draw from the entropy source. *)
Lemma run_init (s : State) :
  let cf := ["backup_config.json"] in
  let k := entropy (world s) (drawn (world s)) in
  run __init__ s =
  if fs_exists (fs (world s)) cf then
    match fs_read (fs (world s)) cf with
    | Ok (Json doc) =>
        ([Ev (Exists cf) true; Ev (Read cf) (Ok (Json doc)); Ev GenerateKey k],
         Ok tt, {| world := draw (world s); self := instance doc k |})
    | Ok text =>
        ([Ev (Exists cf) true; Ev (Read cf) (Ok text)], Err JSONDecodeError,
         {| world := world s; self := instance (config (self s)) (key (self s)) |})
    | Err e =>
        ([Ev (Exists cf) true; Ev (Read cf) (Err e)], Err e,
         {| world := world s; self := instance (config (self s)) (key (self s)) |})
    end
  else
    ([Ev (Exists cf) false; Ev GenerateKey k], Ok tt,
     {| world := draw (world s); self := instance default_config k |}).
Proof.
  cbv zeta. unfold run, __init__, load_config, get_self, put_self, os_path_exists,
    read_file, generate_key.
  cbn [bind run_env handle env_act tl self set_self config_file world set_world].
  destruct (fs_exists (fs (world s)) ["backup_config.json"]);
    cbn [bind run_env handle env_act tl self set_self config_file world set_world lift].
  - destruct (fs_read (fs (world s)) ["backup_config.json"]) as [[ | | | doc] | e];
      cbn; reflexivity.
  - reflexivity.
Qed.

(** [save_config] on a configuration file that is an entry of the working
    directory, absent or a readable regular file: the file system after
    the first call and after the last. *)
Lemma save_config_steps (s : State) (name : string) (m : instant) (l : bool)
  (es : list (string * node)) :
  config_file (self s) = [name] ->
  plain name = true ->
  fs (world s) = Dir m l es ->
  (assoc name es = None \/ exists mt old, assoc name es = Some (File mt true old)) ->
  exists f1 f2,
    crash_after 1 save_config s = set_world s (set_fs (world s) f1)
    /\ run save_config s
       = ([Ev (OpenW [name]) (Ok tt);
           Ev (Write [name] (Json (config (self s)))) (Ok tt)],
          Ok tt,
          set_world s (set_fs (world s) f2))
    /\ fs_exists f1 [name] = true
    /\ fs_read f1 [name] = Ok (Raw "")
    /\ fs_exists f2 [name] = true
    /\ fs_read f2 [name] = Ok (Json (config (self s))).
Proof.
  intros Hcf Hp Hfs Hentry.
  set (t := now (world s)).
  set (m1 := match assoc name es with None => t | Some _ => m end).
  set (es1 := put_entry name (File t true (Raw "")) es).
  set (doc := Json (config (self s))).
  set (es2 := put_entry name (File t true doc) es1).
  exists (Dir m1 l es1), (Dir m1 l es2).
  assert (Hopen : fs_open_w t (Raw "") (fs (world s)) [name] = Ok (Dir m1 l es1)).
  { unfold fs_open_w. rewrite Hfs, stat_entry by exact Hp. unfold m1, es1.
    destruct Hentry as [Hnone | [mt [old Hfile]]].
    - rewrite Hnone. cbn [put_at]. rewrite Hnone. reflexivity.
    - rewrite Hfile. cbn [put_at]. rewrite Hfile. reflexivity. }
  assert (Hwrite : fs_write t (Dir m1 l es1) [name] doc = Ok (Dir m1 l es2)).
  { unfold fs_write. rewrite stat_entry by exact Hp.
    unfold es1 at 1. rewrite assoc_put_entry. cbn [put_at].
    unfold es1 at 1. rewrite assoc_put_entry. reflexivity. }
  assert (Hstat1 : stat (Dir m1 l es1) [name] = Found [name] (File t true (Raw ""))).
  { rewrite stat_entry by exact Hp. unfold es1. rewrite assoc_put_entry. reflexivity. }
  assert (Hstat2 : stat (Dir m1 l es2) [name] = Found [name] (File t true doc)).
  { rewrite stat_entry by exact Hp. unfold es2. rewrite assoc_put_entry. reflexivity. }
  split; [ | split ].
  - unfold save_config, get_self, open_w. cbn [bind crash_after handle].
    rewrite Hcf. fold t. rewrite Hopen. reflexivity.
  - unfold run, save_config, get_self, open_w, write.
    cbn [bind run_env env_act tl handle]. rewrite Hcf.
    fold t. rewrite Hopen. cbn [commit lift bind run_env].
    cbn [self set_world world set_fs fs now]. rewrite Hcf. fold t.
    cbn [handle env_act set_fs fs now]. fold t. fold doc.
    rewrite Hwrite. cbn [commit lift bind run_env]. reflexivity.
  - unfold fs_exists, fs_read. rewrite Hstat1, Hstat2. repeat split; reflexivity.
Qed.

(** The configuration survives a restart, the key does not: once
    [save_config] has completed, a new process finds the configuration
    file, [__init__] succeeds and loads exactly the configuration that was
    saved, with a key freshly drawn. *)
Theorem configuration_survives_restart :
  forall (s : State) (m : instant) (l : bool) (es : list (string * node)),
    config_file (self s) = ["backup_config.json"] ->
    fs (world s) = Dir m l es ->
    (assoc "backup_config.json" es = None
     \/ exists mt old, assoc "backup_config.json" es = Some (File mt true old)) ->
    outcome (run save_config s) = Ok tt
    /\ outcome (run __init__ (restart (final (run save_config s)))) = Ok tt
    /\ self (final (run __init__ (restart (final (run save_config s)))))
       = instance (config (self s)) (entropy (world s) (drawn (world s))).
Proof.
  intros s m l es Hcf Hfs Hentry.
  destruct (save_config_steps s "backup_config.json" m l es Hcf eq_refl Hfs Hentry)
    as (f1 & f2 & _ & Hrun & _ & _ & Hex & Hread).
  rewrite Hrun.
  change (final ([Ev (OpenW ["backup_config.json"]) (Ok tt);
                  Ev (Write ["backup_config.json"] (Json (config (self s)))) (Ok tt)],
                 Ok tt, set_world s (set_fs (world s) f2)))
    with (set_world s (set_fs (world s) f2)).
  rewrite run_init. cbv zeta.
  cbn [restart world set_world set_fs fs entropy drawn].
  rewrite Hex, Hread. split; [ reflexivity | ]. split; reflexivity.
Qed.

(** A crash in the middle of a save disables every later start: a process
    killed after the first call of [save_config] leaves an empty
    configuration file, on which [__init__] raises [JSONDecodeError]. *)
Theorem crash_during_save_breaks_startup :
  forall (s : State) (m : instant) (l : bool) (es : list (string * node)),
    config_file (self s) = ["backup_config.json"] ->
    fs (world s) = Dir m l es ->
    (assoc "backup_config.json" es = None
     \/ exists mt old, assoc "backup_config.json" es = Some (File mt true old)) ->
    outcome (run __init__ (restart (crash_after 1 save_config s)))
    = Err JSONDecodeError.
Proof.
  intros s m l es Hcf Hfs Hentry.
  destruct (save_config_steps s "backup_config.json" m l es Hcf eq_refl Hfs Hentry)
    as (f1 & f2 & Hcrash & _ & Hex & Hread & _ & _).
  rewrite Hcrash, run_init. cbv zeta.
  cbn [restart world set_world set_fs fs]. rewrite Hex, Hread. reflexivity.
Qed.

Lemma configuration_survives_restart_witness :
  outcome (run save_config pending_state) = Ok tt
  /\ outcome (run __init__ (restart (final (run save_config pending_state)))) = Ok tt
  /\ self (final (run __init__ (restart (final (run save_config pending_state)))))
     = instance (config (self pending_state))
         (entropy (world pending_state) (drawn (world pending_state))).
Proof.
  apply (configuration_survives_restart pending_state 100%Z true
           (match fs (world pending_state) with
            | Dir _ _ es => es
            | _ => []
            end)).
  - vm_compute. reflexivity.
  - vm_compute. reflexivity.
  - right. vm_compute. eexists. eexists. reflexivity.
Defined.

Lemma crash_during_save_breaks_startup_witness :
  outcome (run __init__ (restart (crash_after 1 save_config pending_state)))
  = Err JSONDecodeError.
Proof.
  apply (crash_during_save_breaks_startup pending_state 100%Z true
           (match fs (world pending_state) with
            | Dir _ _ es => es
            | _ => []
            end)).
  - vm_compute. reflexivity.
  - vm_compute. reflexivity.
  - right. vm_compute. eexists. eexists. reflexivity.
Defined.

(* ================================================================== *)
(** * Restoring what cannot be decrypted *)

(** [restore_backup] reads and decrypts before it writes anything: when
    the file cannot be read, or does not authenticate under the key of
    this instance (it is not a token, or a token of another key), the
    exception escapes after that single read and nothing was created, not
    even the restore directory. *)
Theorem restore_backup_rejects_before_writing :
  forall (s : State) (backup_path restore_dir : path),
    (forall token plain,
        fs_read (fs (world s)) backup_path = Ok token ->
        fernet_decrypt (key (self s)) token = Ok plain -> False) ->
    exists e,
      run (restore_backup backup_path restore_dir) s
      = ([Ev (Read backup_path) (fs_read (fs (world s)) backup_path)], Err e, s)
      /\ (forall token, fs_read (fs (world s)) backup_path = Ok token ->
                        e = InvalidToken).
Proof.
  intros s backup_path restore_dir Hbad.
  unfold run, restore_backup, read_file, cipher_decrypt, get_self.
  cbn [bind run_env handle env_act tl]. rewrite set_world_same.
  destruct (fs_read (fs (world s)) backup_path) as [token | e] eqn:Hread.
  - cbn [lift bind run_env].
    destruct (fernet_decrypt (key (self s)) token) as [plain | e] eqn:Hdec.
    + exfalso. exact (Hbad token plain eq_refl Hdec).
    + exists e. cbn [lift bind run_env]. split; [ reflexivity | ].
      intros token' _. unfold fernet_decrypt in Hdec.
      destruct token as [ | | k iv ts plain | ]; try (inversion Hdec; reflexivity).
      destruct (String.eqb (key (self s)) k); inversion Hdec; reflexivity.
  - exists e. cbn [lift bind run_env]. split; [ reflexivity | ].
    intros token' H. discriminate.
Qed.

(** Archives do not survive a restart.  An archive that this instance
    made (a token under its key) is rejected with [InvalidToken], before
    anything is written, by the instance a restarted process builds,
    whenever the key drawn at the restart differs from the old one. *)
Theorem archives_do_not_survive_restart :
  forall (s : State) (backup_path restore_dir : path) (iv : string) (ts : instant)
         (plain : data),
    fs_read (fs (world s)) backup_path = Ok (Token (key (self s)) iv ts plain) ->
    outcome (run __init__ (restart s)) = Ok tt ->
    entropy (world s) (drawn (world s)) <> key (self s) ->
    outcome (run (cipher_decrypt (Token (key (self s)) iv ts plain)) s) = Ok plain
    /\ run (restore_backup backup_path restore_dir) (final (run __init__ (restart s)))
       = ([Ev (Read backup_path) (Ok (Token (key (self s)) iv ts plain))],
          Err InvalidToken, final (run __init__ (restart s))).
Proof.
  intros s backup_path restore_dir iv ts plain Hread Hinit Hkey.
  split.
  { unfold run, cipher_decrypt. rewrite run_env_get_self. cbn.
    rewrite String.eqb_refl. reflexivity. }
  set (k := entropy (world s) (drawn (world s))) in *.
  assert (Hs1 : exists cfg,
             final (run __init__ (restart s))
             = {| world := draw (world s); self := instance cfg k |}).
  { revert Hinit. rewrite run_init. cbv zeta.
    cbn [restart world]. fold k.
    destruct (fs_exists (fs (world s)) ["backup_config.json"]).
    - destruct (fs_read (fs (world s)) ["backup_config.json"]) as [[ | | | doc] | e];
        cbn; intros H; try discriminate. exists doc. reflexivity.
    - intros _. exists default_config. reflexivity. }
  destruct Hs1 as [cfg Hs1]. rewrite Hs1.
  unfold run, restore_backup, read_file, cipher_decrypt, get_self.
  cbn [bind run_env handle env_act tl world set_world draw fs self].
  rewrite Hread.
  cbn [lift bind run_env fernet_decrypt set_world self instance key].
  destruct (String.eqb_spec k (key (self s))) as [E | E]; [ contradiction | ].
  reflexivity.
Qed.

Lemma restore_backup_rejects_before_writing_witness :
  exists e,
    run (restore_backup demo_archive ["restored"]) restarted_state
    = ([Ev (Read demo_archive) (fs_read (fs (world restarted_state)) demo_archive)],
       Err e, restarted_state)
    /\ (forall token, fs_read (fs (world restarted_state)) demo_archive = Ok token ->
                      e = InvalidToken).
Proof.
  apply (restore_backup_rejects_before_writing restarted_state demo_archive ["restored"]).
  intros token plain Hread Hdec.
  vm_compute in Hread. inversion Hread. subst token.
  vm_compute in Hdec. discriminate.
Defined.

Lemma archives_do_not_survive_restart_witness :
  outcome (run (cipher_decrypt
                  (Token (key (self backed_up_state)) "B" 100%Z
                     (Zip [(["a.txt"], Some (Raw "1")); (["b.txt"], Some (Raw "2"))])))
             backed_up_state)
  = Ok (Zip [(["a.txt"], Some (Raw "1")); (["b.txt"], Some (Raw "2"))])
  /\ run (restore_backup demo_archive ["restored"])
         (final (run __init__ (restart backed_up_state)))
     = ([Ev (Read demo_archive)
           (Ok (Token (key (self backed_up_state)) "B" 100%Z
                  (Zip [(["a.txt"], Some (Raw "1")); (["b.txt"], Some (Raw "2"))])))],
        Err InvalidToken, final (run __init__ (restart backed_up_state))).
Proof.
  apply (archives_do_not_survive_restart backed_up_state demo_archive ["restored"]).
  - vm_compute. reflexivity.
  - vm_compute. reflexivity.
  - vm_compute. discriminate.
Defined.

(* ================================================================== *)
(** * The names of the archives *)

Lemma returns_bind {A B : Type} (P : B -> Prop) (p : prog A) (f : A -> prog B) :
  (forall a, returns P (f a)) -> returns P (bind p f).
Proof.
  intros Hf. induction p as [a | e | k IH | b k IH | op k IH]; simpl; auto.
Qed.

Lemma returns_outcome {A : Type} (P : A -> Prop) (p : prog A) :
  returns P p ->
  forall env s a, outcome (run_env env p s) = Ok a -> P a.
Proof.
  induction p as [a | e | k IH | b k IH | op k IH]; simpl; intros Hp env s x Hx.
  - inversion Hx. subst. exact Hp.
  - discriminate.
  - eapply IH; [ apply Hp | exact Hx ].
  - eapply IH; [ apply Hp | exact Hx ].
  - destruct (handle op (env_act env (world s))) as [r w].
    specialize (IH r (Hp r) (tl env) (set_world s w) x).
    destruct (run_env (tl env) (k r) (set_world s w)) as [[t o] s'].
    apply IH. exact Hx.
Qed.

Lemma outcome_do {A : Type} (op : effect) (k : reply op -> prog A)
      (env : schedule_of) (s : State) (a : A) :
  outcome (run_env env (Do op k) s) = Ok a ->
  outcome (run_env (tl env) (k (fst (handle op (env_act env (world s)))))
                   (set_world s (snd (handle op (env_act env (world s))))))
  = Ok a.
Proof.
  cbn [run_env].
  destruct (handle op (env_act env (world s))) as [r w]. cbn [fst snd].
  destruct (run_env (tl env) (k r) (set_world s w)) as [[t o] s'].
  intros H. exact H.
Qed.

(** The path [full_backup] returns is made of the backup directory and of
    the clock label read by its first call. *)
Lemma full_backup_path (env : schedule_of) (s : State) (backup_path : path) :
  outcome (run_env env full_backup s) = Ok backup_path ->
  backup_path
  = join (backup_dir (config (self s)))
         ("тест_full_" ++ now_label (env_act env (world s)) ++ ".zip")%string.
Proof.
  unfold full_backup, now_strftime, get_self. cbn [bind].
  intros Ho. apply outcome_do in Ho. cbn [handle fst snd run_env] in Ho.
  change (self (set_world s (env_act env (world s)))) with (self s) in Ho.
  revert Ho.
  apply (returns_outcome
           (fun p => p = join (backup_dir (config (self s)))
                            ("тест_full_" ++ now_label (env_act env (world s))
                             ++ ".zip")%string)).
  apply returns_bind. intros _. apply returns_bind. intros all_files.
  apply returns_bind. intros _. apply returns_bind. intros t0.
  cbn. intros. apply returns_bind. intros _. exact eq_refl.
Qed.

(** Backup runs keep the directories of the configuration. *)
Lemma backup_run_dirs {B : Type} kind tag count (ret : path -> B) chosen s t o s' :
  backup_run kind tag count ret chosen s t o s' ->
  backup_dir (config (self s')) = backup_dir (config (self s))
  /\ source_dirs (config (self s')) = source_dirs (config (self s))
  /\ schedule (config (self s')) = schedule (config (self s)).
Proof.
  intros (timestamp & files & tpre & trest & H). cbv zeta in H.
  destruct H as [_ [_ [_ [Hab | Hrec]]]].
  - destruct Hab as [Hself _]. rewrite Hself. repeat split.
  - destruct Hrec as (tz & tsl & tsave & tm & Hrec). cbv zeta in Hrec.
    destruct Hrec as (_ & _ & _ & _ & Hself & _). rewrite Hself. repeat split.
Qed.

(** A backup that returned [backup_path] wrote a token at [backup_path]. *)
Lemma marker_follows_sealing_write s backup_path t s' :
  marker_follows_sealing s backup_path t s' ->
  exists token, In (Ev (Write backup_path token) (Ok tt)) t.
Proof.
  intros (files & tpre & tz & tsl & tm & H). cbv zeta in H.
  destruct H as (Ht & _ & _ & (d & token & Hsl) & _).
  exists token. subst t tsl.
  apply in_or_app. right. apply in_or_app. right. apply in_or_app. left.
  cbn. auto.
Qed.

(** A full backup that returned its path: the path, the write of the
    artifact and the entry of the history. *)
Lemma full_backup_done (env : schedule_of) (s : State) (backup_path : path) :
  outcome (run_env env full_backup s) = Ok backup_path ->
  backup_path
  = join (backup_dir (config (self s)))
         ("тест_full_" ++ now_label (env_act env (world s)) ++ ".zip")%string
  /\ (exists token,
        In (Ev (Write backup_path token) (Ok tt)) (trace_of (run_env env full_backup s)))
  /\ (exists h, history (final (run_env env full_backup s)) = history s ++ [h]
                /\ h_path h = backup_path)
  /\ backup_dir (config (self (final (run_env env full_backup s))))
     = backup_dir (config (self s)).
Proof.
  intros Ho. pose proof (full_backup_path env s backup_path Ho) as Hpath.
  pose proof (run_full_backup env s) as Hshape.
  destruct (run_env env full_backup s) as [[t o] s'].
  unfold outcome, trace_of, final in *. cbn [fst snd] in *.
  split; [ exact Hpath | ]. split; [ | split ].
  - apply (marker_follows_sealing_write s backup_path t s').
    eapply backup_run_marker; [ | exact Hshape | exact Ho ].
    intros p q H. exact H.
  - destruct (backup_run_history _ _ _ _ _ _ _ _ _ Hshape)
      as [[_ [e He]] | (timestamp & files & Hh)].
    + rewrite Ho in He. discriminate.
    + cbv zeta in Hh. destruct Hh as [Hh [Hr | [e He]]].
      * eexists. split; [ exact Hh | ]. cbn [h_path].
        rewrite Ho in Hr. inversion Hr. reflexivity.
      * rewrite Ho in He. discriminate.
  - exact (proj1 (backup_run_dirs _ _ _ _ _ _ _ _ _ Hshape)).
Qed.

(** The name of an archive is made of the kind of the backup and of the
    clock's label, which has a resolution of one second (line 54).  So a
    full backup made by an instance while the label is the one its
    previous full backup read returns the same path: it overwrites the
    archive of the previous backup, whatever happened to the files in
    between, and the history then lists two backups under one path. *)
Theorem full_backups_in_one_second_share_one_archive
  (env1 env2 : schedule_of) (s s2 : State) (p1 p2 : path) :
  outcome (run_env env1 full_backup s) = Ok p1 ->
  self s2 = self (final (run_env env1 full_backup s)) ->
  now_label (env_act env2 (world s2)) = now_label (env_act env1 (world s)) ->
  outcome (run_env env2 full_backup s2) = Ok p2 ->
  p2 = p1
  /\ (exists token,
        In (Ev (Write p1 token) (Ok tt)) (trace_of (run_env env2 full_backup s2)))
  /\ (exists h1 h2,
        history (final (run_env env2 full_backup s2)) = history s ++ [h1; h2]
        /\ h_path h1 = p1 /\ h_path h2 = p1).
Proof.
  intros H1 Hself Hlabel H2.
  destruct (full_backup_done env1 s p1 H1) as (Hp1 & _ & (h1 & Hh1 & Hhp1) & Hbd1).
  destruct (full_backup_done env2 s2 p2 H2) as (Hp2 & Hw2 & (h2 & Hh2 & Hhp2) & _).
  assert (Heq : p2 = p1).
  { rewrite Hp2, Hp1, Hself, Hbd1, Hlabel. reflexivity. }
  rewrite Heq in Hw2, Hhp2. split; [ exact Heq | ]. split; [ exact Hw2 | ].
  exists h1, h2. split; [ | split; assumption ].
  rewrite Hh2. unfold history at 1. rewrite Hself. fold (history (final (run_env env1 full_backup s))).
  rewrite Hh1, <- app_assoc. reflexivity.
Qed.

Lemma full_backups_in_one_second_share_one_archive_witness :
  exists p1,
    outcome (run full_backup demo_state) = Ok p1
    /\ outcome (run full_backup backed_up_state) = Ok p1
    /\ exists h1 h2,
         history (final (run full_backup backed_up_state))
         = history demo_state ++ [h1; h2]
         /\ h_path h1 = p1 /\ h_path h2 = p1.
Proof.
  exists demo_archive.
  assert (H1 : outcome (run_env [] full_backup demo_state) = Ok demo_archive)
    by (vm_compute; reflexivity).
  assert (H2 : outcome (run_env [] full_backup backed_up_state) = Ok demo_archive)
    by (vm_compute; reflexivity).
  assert (Hself : self backed_up_state = self (final (run_env [] full_backup demo_state)))
    by reflexivity.
  assert (Hlabel : now_label (env_act [] (world backed_up_state))
                   = now_label (env_act [] (world demo_state)))
    by (vm_compute; reflexivity).
  split; [ exact H1 | ]. split; [ exact H2 | ].
  exact (proj2 (proj2 (full_backups_in_one_second_share_one_archive
                         [] [] demo_state backed_up_state demo_archive demo_archive
                         H1 Hself Hlabel H2))).
Defined.

(* ================================================================== *)
(** * What a restore leaves behind, and what no method changes *)

Lemma cleans_up_last_bind {A B : Type} temp sets (p : prog A) (f : A -> prog B) :
  within keeps_files sets p ->
  (forall a, cleans_up_last temp (f a)) ->
  cleans_up_last temp (bind p f).
Proof.
  intros Hp Hf.
  induction p as [a | e | k IH | b k IH | op k IH]; cbn [bind cleans_up_last within] in *.
  - apply Hf.
  - exact I.
  - intros b. apply IH, Hp.
  - apply IH, Hp.
  - destruct Hp as [Hop Hk]. intros r.
    unfold removed. cbn [ev_op]. unfold keeps_files in Hop.
    destruct (is_remove op); [ discriminate | ]. cbn [andb].
    apply IH, Hk.
Qed.

Lemma cleans_up_last_run {A : Type} temp (p : prog A) :
  cleans_up_last temp p ->
  forall env s,
    match outcome (run_env env p s) with
    | Ok _ =>
        exists t0,
          trace_of (run_env env p s) = t0 ++ [Ev (Remove temp) (Ok tt)]
          /\ existsb removed t0 = false
    | Err _ => existsb removed (trace_of (run_env env p s)) = false
    end.
Proof.
  induction p as [a | e | k IH | b k IH | op k IH];
    cbn [cleans_up_last run_env]; intros Hp env s.
  - destruct Hp.
  - reflexivity.
  - apply IH, Hp.
  - apply IH, Hp.
  - destruct (handle op (env_act env (world s))) as [r w].
    specialize (Hp r). specialize (IH r).
    destruct (removed (Ev op r)) eqn:Hrem.
    + destruct Hp as [Hop [a Hk]]. subst op. rewrite Hk. cbn [run_env].
      unfold outcome, trace_of. cbn [fst snd].
      exists []. split; [ | reflexivity ].
      unfold removed, failed in Hrem. cbn [ev_op ev_reply is_remove failure andb] in Hrem.
      destruct r as [[] | e]; [ reflexivity | discriminate ].
    + specialize (IH Hp (tl env) (set_world s w)).
      destruct (run_env (tl env) (k r) (set_world s w)) as [[t o] s'].
      unfold outcome, trace_of in *. cbn [fst snd] in *.
      destruct o as [a | e].
      * destruct IH as [t0 [Ht H0]]. exists (Ev op r :: t0).
        split; [ rewrite Ht; reflexivity | ].
        cbn [existsb]. rewrite Hrem, H0. reflexivity.
      * cbn [existsb]. rewrite Hrem, IH. reflexivity.
Qed.

Lemma extract_member_keeps_files targetdir member :
  within keeps_files false (extract_member targetdir member).
Proof.
  unfold extract_member. apply within_bind.
  - destruct (removelast _); [ exact I | ].
    apply within_leaf; [ reflexivity | ]. intros [ | ]; simpl; [ exact I | ].
    split; [ reflexivity | ]. intros r. apply within_lift.
  - intros _. destruct (snd member) as [content | ].
    + simpl. split; [ reflexivity | ]. intros [[] | e]; simpl; [ | exact I ].
      split; [ reflexivity | ]. intros r. apply within_lift.
    + simpl. split; [ reflexivity | ]. intros [ | ]; simpl; [ exact I | ].
      split; [ reflexivity | ]. intros r. apply within_lift.
Qed.

Lemma restore_backup_cleans_up_last backup_path restore_dir :
  cleans_up_last (add_suffix backup_path ".temp.zip")
                 (restore_backup backup_path restore_dir).
Proof.
  unfold restore_backup.
  apply (cleans_up_last_bind _ false).
  { apply within_leaf; [ reflexivity | ]. intros r. apply within_lift. }
  intros encrypted_data. apply (cleans_up_last_bind _ false).
  { unfold cipher_decrypt. cbn [bind get_self within]. intros b. apply within_lift. }
  intros decrypted_data. cbv zeta. apply (cleans_up_last_bind _ false).
  { apply within_leaf; [ reflexivity | ]. intros r. apply within_lift. }
  intros _. apply (cleans_up_last_bind _ false).
  { apply within_leaf; [ reflexivity | ]. intros r. apply within_lift. }
  intros _. apply (cleans_up_last_bind _ false).
  { apply within_leaf; [ reflexivity | ]. intros r. apply within_lift. }
  intros _. apply (cleans_up_last_bind _ false).
  { apply within_leaf; [ reflexivity | ]. intros r. apply within_lift. }
  intros archive. apply (cleans_up_last_bind _ false).
  { apply within_lift. }
  intros members. apply (cleans_up_last_bind _ false).
  { apply within_for_each. intros member. apply extract_member_keeps_files. }
  intros _. unfold os_remove. cbn [cleans_up_last].
  intros [[] | e]; cbn.
  - split; [ reflexivity | ]. exists tt. reflexivity.
  - exact I.
Qed.

Lemma trace_of_do {A : Type} (op : effect) (k : reply op -> prog A)
      (env : schedule_of) (s : State) :
  trace_of (run_env env (Do op k) s)
  = Ev op (fst (handle op (env_act env (world s))))
    :: trace_of (run_env (tl env) (k (fst (handle op (env_act env (world s)))))
                         (set_world s (snd (handle op (env_act env (world s)))))).
Proof.
  cbn [run_env].
  destruct (handle op (env_act env (world s))) as [r w]. cbn [fst snd].
  destruct (run_env (tl env) (k r) (set_world s w)) as [[t o] s']. reflexivity.
Qed.

(** The first calls of [restore_backup]: when there is a third call, the
    first read a token that decrypts under the key of [self], and the
    third writes the decrypted bytes at [backup_path + ".temp.zip"]. *)
Lemma restore_backup_writes_plaintext env s backup_path restore_dir ev :
  nth_error (trace_of (run_env env (restore_backup backup_path restore_dir) s)) 2
  = Some ev ->
  exists token plain reply,
    nth_error (trace_of (run_env env (restore_backup backup_path restore_dir) s)) 0
    = Some (Ev (Read backup_path) (Ok token))
    /\ fernet_decrypt (key (self s)) token = Ok plain
    /\ ev = Ev (Write (add_suffix backup_path ".temp.zip") plain) reply.
Proof.
  unfold restore_backup, read_file. cbn [bind]. rewrite trace_of_do.
  destruct (handle (Read backup_path) (env_act env (world s))) as [[token | e] w1];
    cbn [fst snd lift bind nth_error].
  2:{ cbn [run_env trace_of fst]. discriminate. }
  unfold cipher_decrypt, get_self. cbn [bind run_env].
  change (self (set_world s w1)) with (self s).
  destruct (fernet_decrypt (key (self s)) token) as [plain | e] eqn:Hdec;
    cbn [lift bind].
  2:{ cbn [run_env trace_of fst]. discriminate. }
  unfold open_w. cbn [bind]. rewrite trace_of_do.
  destruct (handle (OpenW (add_suffix backup_path ".temp.zip"))
                   (env_act (tl env) (world (set_world s w1)))) as [[[] | e] w2];
    cbn [fst snd lift bind nth_error].
  2:{ cbn [run_env trace_of fst]. discriminate. }
  unfold write. cbn [bind]. rewrite trace_of_do. cbn [nth_error].
  intros H. inversion H. exists token, plain. eexists.
  split; [ reflexivity | ]. split; [ exact Hdec | reflexivity ].
Qed.

Lemma prefix_append (a b c : string) :
  prefix a b = true -> prefix a (b ++ c)%string = true.
Proof.
  revert b. induction a as [ | x a IH]; intros b H; [ destruct b, c; reflexivity | ].
  destruct b as [ | y b]; [ discriminate | ].
  cbn [prefix String.append] in *.
  destruct (ascii_dec x y); [ apply IH; exact H | discriminate ].
Qed.

Lemma contains_append (sub a b : string) :
  contains sub a = true -> contains sub (a ++ b)%string = true.
Proof.
  induction a as [ | x a IH]; intros H.
  - cbn [contains] in H. rewrite orb_false_r in H.
    destruct sub; [ destruct b; reflexivity | discriminate ].
  - cbn [contains] in H. apply orb_true_iff in H. destruct H as [H | H].
    + change (contains sub (String x a ++ b)%string)
        with (prefix sub (String x a ++ b)%string || contains sub (a ++ b)%string).
      rewrite (prefix_append _ _ _ H). reflexivity.
    + change (contains sub (String x a ++ b)%string)
        with (prefix sub (String x a ++ b)%string || contains sub (a ++ b)%string).
      rewrite (IH H). apply orb_true_r.
Qed.

(** The plaintext copy carries a backup's name whenever the backup does. *)
Lemma restore_temp_is_backup_name (name : string) :
  is_backup_name name = true -> is_backup_name (name ++ ".temp.zip")%string = true.
Proof.
  unfold is_backup_name. intros H. apply andb_true_iff in H. destruct H as [_ Hc].
  apply andb_true_iff. split; [ | apply contains_append; exact Hc ].
  unfold endswith. rewrite length_append. cbn [String.length].
  replace (String.length name + 9 - 4) with (String.length name + 5) by lia.
  rewrite substring_append_skip.
  destruct (4 <=? String.length name + 9)%nat eqn:E; [ reflexivity | ].
  apply Nat.leb_gt in E. lia.
Qed.

(** [restore_backup] keeps a decrypted copy of the archive next to the
    backup while it extracts, and removes it only at the very end.  In any
    environment: the third call, when it is made, writes the bytes the
    token decrypts to, in plaintext, at [backup_path + ".temp.zip"], a name
    that [list_backups] takes for a backup whenever the backup's is one;
    a restore that returns removed that copy with its last call and
    removed nothing else; a restore that raises removed nothing, so a
    failure after the third call leaves the plaintext copy where it is. *)
Theorem restore_backup_leaves_plaintext_on_failure :
  forall (env : schedule_of) (s : State) (d : path) (name : string)
         (restore_dir : path),
    add_suffix (join d name) ".temp.zip" = join d (name ++ ".temp.zip")%string
    /\ (is_backup_name name = true ->
        is_backup_name (name ++ ".temp.zip")%string = true)
    /\ (forall ev,
          nth_error (trace_of (run_env env (restore_backup (join d name) restore_dir) s)) 2
          = Some ev ->
          exists token plain reply,
            nth_error (trace_of (run_env env (restore_backup (join d name) restore_dir) s)) 0
            = Some (Ev (Read (join d name)) (Ok token))
            /\ fernet_decrypt (key (self s)) token = Ok plain
            /\ ev = Ev (Write (join d (name ++ ".temp.zip")%string) plain) reply)
    /\ match outcome (run_env env (restore_backup (join d name) restore_dir) s) with
       | Ok _ =>
           exists t0,
             trace_of (run_env env (restore_backup (join d name) restore_dir) s)
             = t0 ++ [Ev (Remove (join d (name ++ ".temp.zip")%string)) (Ok tt)]
             /\ existsb removed t0 = false
       | Err _ =>
           existsb removed
             (trace_of (run_env env (restore_backup (join d name) restore_dir) s))
           = false
       end.
Proof.
  intros env s d name restore_dir.
  split; [ apply add_suffix_join | ].
  split; [ apply restore_temp_is_backup_name | ].
  rewrite <- add_suffix_join. split.
  - intros ev. apply restore_backup_writes_plaintext.
  - apply cleans_up_last_run. apply restore_backup_cleans_up_last.
Qed.

(** No method reconfigures the instance: in any environment
    [full_backup], [incremental_backup] and [restore_backup] end with the
    source directories, the backup directory, the schedule and the path of
    the configuration file they started with; of the configuration only
    the marker and the history ever change. *)
Theorem settings_are_never_changed :
  forall (env : schedule_of) (s : State),
    same_settings s (final (run_env env full_backup s))
    /\ same_settings s (final (run_env env incremental_backup s))
    /\ (forall backup_path restore_dir,
          same_settings s
            (final (run_env env (restore_backup backup_path restore_dir) s))).
Proof.
  intros env s.
  assert (Hrun : forall (B : Type) kind tag count (ret : path -> B) chosen t o s',
             backup_run kind tag count ret chosen s t o s' -> same_settings s s').
  { intros B kind tag count ret chosen t o s' H. unfold same_settings.
    destruct (backup_run_dirs _ _ _ _ _ _ _ _ _ H) as (Hb & Hs & Hsch).
    destruct (backup_run_key _ _ _ _ _ _ _ _ _ H) as (_ & Hcf).
    repeat split; assumption. }
  split; [ | split ].
  - pose proof (run_full_backup env s) as Hshape.
    destruct (run_env env full_backup s) as [[t o] s'].
    exact (Hrun _ _ _ _ _ _ _ _ _ Hshape).
  - pose proof (run_incremental_backup env s) as Hshape.
    destruct (run_env env incremental_backup s) as [[t o] s'].
    destruct (last_backup (config (self s))) as [marker | ].
    + destruct Hshape as [[_ [Hself _]] | Hshape].
      * unfold same_settings, final. cbn [fst snd]. rewrite Hself. repeat split.
      * exact (Hrun _ _ _ _ _ _ _ _ _ Hshape).
    + exact (Hrun _ _ _ _ _ _ _ _ _ Hshape).
  - intros backup_path restore_dir. unfold same_settings.
    rewrite (within_self any_call _ (within_restore_backup backup_path restore_dir) env s).
    repeat split.
Qed.
